(** * A shallow embedding of the object store of [libpgit.py]

    Python [bytes] and [str] values are modelled as Rocq [string]s (a Rocq
    [ascii] is an 8-bit byte).  Python integers used as indices are [Z], so
    that [find] returning [-1] and negative slice bounds behave as in
    Python.  Every function that can raise returns a [result]; the Python
    exception it raises is a constructor of [exn].  Loops and recursions
    that Python runs without a bound take a [fuel] argument; running out of
    fuel yields [Err OutOfFuel], which is never a Python outcome (it stands
    for a run that has not finished yet, or does not finish). *)

From Stdlib Require Import Ascii String ZArith List Bool.
From Stdlib Require Import Strings.HexString Numbers.DecimalString Numbers.DecimalNat.
From stdpp Require Import base gmap strings list.
From Stdlib Require Import Sorting.Sorted.

Local Open Scope Z_scope.

(** ** Python exceptions and the result monad *)

Inductive exn : Type :=
| AssertionError
| IndexError
| TypeError
| AttributeError
| ValueError
| KeyError
| OverflowError
| UnicodeDecodeError
| FileNotFoundError
| IsADirectoryError
| NotADirectoryError
| FileExistsError
| ZlibError
(** [raise Exception(f"Not a directory {path}")] in [repo_dir] *)
| NotADirectoryException
(** [raise Exception(f"Malformed object ...: bad length.")] in [object_read] *)
| BadLength
(** [raise Exception(f"Unknown type ...")] in [object_read] *)
| UnknownType
(** [raise Exception(f"No such reference {name}")] in [object_find] *)
| NoSuchReference
(** [raise Exception("Ambiguous reference ...")] in [object_find] *)
| AmbiguousReference (candidates : list string)
| OutOfFuel.

Inductive result (A : Type) : Type :=
| Ok (a : A)
| Err (e : exn).
Arguments Ok {A} a.
Arguments Err {A} e.

Global Instance result_ret : MRet result := fun _ a => Ok a.
Global Instance result_bind : MBind result :=
  fun _ _ f m => match m with Ok a => f a | Err e => Err e end.

(** ** Python byte-string primitives *)

Module Py.

Definition zlen (s : string) : Z := Z.of_nat (String.length s).

Definition char (n : nat) : ascii := ascii_of_nat n.
Definition NL : ascii := char 10.
Definition NUL : ascii := char 0.
Definition SP : ascii := " "%char.
Definition s1 (c : ascii) : string := String c EmptyString.

Fixpoint sdrop (n : nat) (s : string) : string :=
  match n, s with
  | O, _ => s
  | S n', EmptyString => EmptyString
  | S n', String _ s' => sdrop n' s'
  end.

Fixpoint stake (n : nat) (s : string) : string :=
  match n, s with
  | O, _ => EmptyString
  | S n', EmptyString => EmptyString
  | S n', String c s' => String c (stake n' s')
  end.

(** Index of the first occurrence of byte [c] in [s]. *)
Fixpoint find_char (c : ascii) (s : string) : option nat :=
  match s with
  | EmptyString => None
  | String d s' =>
      if ascii_dec c d then Some O
      else match find_char c s' with Some k => Some (S k) | None => None end
  end.

(** [s.find(c, start)] for a one-byte needle [c]: a negative [start]
    counts from the end; the result is [-1] when [c] does not occur. *)
Definition find (s : string) (c : ascii) (start : Z) : Z :=
  let i := if start <? 0 then Z.max 0 (start + zlen s) else start in
  if zlen s <? i then -1
  else match find_char c (sdrop (Z.to_nat i) s) with
       | Some k => i + Z.of_nat k
       | None => -1
       end.

(** A slice bound, normalised as Python does. *)
Definition clamp (s : string) (i : Z) : nat :=
  Z.to_nat (if i <? 0 then Z.max 0 (i + zlen s) else Z.min i (zlen s)).

(** [s[i:j]] *)
Definition slice (s : string) (i j : Z) : string :=
  let a := clamp s i in
  let b := clamp s j in
  stake (b - a)%nat (sdrop a s).

(** [s[i:]] *)
Definition slice_from (s : string) (i : Z) : string := slice s i (zlen s).

(** [s[i]]: [IndexError] out of range. *)
Definition index (s : string) (i : Z) : result ascii :=
  let j := if i <? 0 then i + zlen s else i in
  if (j <? 0) || (zlen s <=? j) then Err IndexError
  else match String.get (Z.to_nat j) s with
       | Some c => Ok c
       | None => Err IndexError
       end.

(** [s.replace(old, new)] for a non-empty [old]: left to right, without
    overlaps.  Each step consumes at least one byte, so [length s] steps
    suffice. *)
Fixpoint replace_aux (fuel : nat) (old new s : string) : string :=
  match fuel with
  | O => s
  | S f =>
      match s with
      | EmptyString => EmptyString
      | String c s' =>
          if String.prefix old s
          then (new ++ replace_aux f old new (sdrop (String.length old) s))%string
          else String c (replace_aux f old new s')
      end
  end.

Definition replace (old new s : string) : string :=
  replace_aux (String.length s) old new s.

End Py.

Import Py.

(** ** The structured-text codec ([key_value_list_with_message]) *)

Module Kvlm.

(** A value stored in the dictionary: [bytes], a [list] of bytes, or the
    Python [set] built by [{dct[key], value}].  A [KSet] lists the distinct
    members of the set; the order of that list carries no meaning, as a
    Python set has no order. *)
Inductive kval : Type :=
| KBytes (b : string)
| KList (l : list string)
| KSet (l : list string).

(** An [OrderedDict]: keys in insertion order, each key once. *)
Definition odict := list (string * kval).

Fixpoint od_lookup (k : string) (d : odict) : option kval :=
  match d with
  | [] => None
  | (k', v) :: d' => if String.eqb k k' then Some v else od_lookup k d'
  end.

(** [d[k] = v]: an existing key keeps its position, a new one goes last. *)
Fixpoint od_set (k : string) (v : kval) (d : odict) : odict :=
  match d with
  | [] => [(k, v)]
  | (k', v') :: d' =>
      if String.eqb k k' then (k', v) :: d' else (k', v') :: od_set k v d'
  end.

(** The set literal [{a, b}]. *)
Definition set_pair (a b : string) : list string :=
  if String.eqb a b then [a] else [a; b].

(** [if key in dct: ... else: dct[key] = value] *)
Definition kvlm_add (key value : string) (dct : odict) : result odict :=
  match od_lookup key dct with
  | None => Ok (od_set key (KBytes value) dct)
  | Some (KList l) => Ok (od_set key (KList (l ++ [value])) dct)
  | Some (KBytes v0) => Ok (od_set key (KSet (set_pair v0 value)) dct)
  (* [{dct[key], value}] with a set member: [TypeError: unhashable type] *)
  | Some (KSet _) => Err TypeError
  end.

(** [end = find('\n', end + 1)] until the byte after it is not a space. *)
Fixpoint value_end (fuel : nat) (raw : string) (e : Z) : result Z :=
  match fuel with
  | O => Err OutOfFuel
  | S f =>
      let e' := find raw NL (e + 1) in
      c ← index raw (e' + 1);
      if ascii_dec c SP then value_end f raw e' else Ok e'
  end.

(** [key_value_list_with_message_parse(raw, start, dct)]; the
    [if not dct: dct = OrderedDict()] line replaces an empty dictionary
    by a fresh empty one, which is the identity here. *)
Fixpoint parse_aux (fuel : nat) (raw : string) (start : Z) (dct : odict)
  : result odict :=
  match fuel with
  | O => Err OutOfFuel
  | S f =>
      let spc := find raw SP start in
      let nl := find raw NL start in
      if (spc =? -1) || (nl <? spc) then
        if nl =? start
        then Ok (od_set EmptyString (KBytes (slice_from raw (start + 1))) dct)
        else Err AssertionError
      else
        let key := slice raw start spc in
        end_ ← value_end f raw start;
        let value := replace (String NL (s1 SP)) (s1 NL)
                       (slice raw (spc + 1) end_) in
        dct' ← kvlm_add key value dct;
        parse_aux f raw (end_ + 1) dct'
  end.

Definition key_value_list_with_message_parse (fuel : nat) (raw : string)
  : result odict :=
  parse_aux fuel raw 0 [].

(** The lines [k + b'' + v.replace(b'\n', b'\n ') + b'\n'] of one key;
    [val] is normalised to a list first. *)
Definition serialize_field (k : string) (v : kval) : result string :=
  match v with
  | KBytes b => Ok (k ++ EmptyString ++ replace (s1 NL) (String NL (s1 SP)) b ++ s1 NL)%string
  | KList l =>
      Ok (String.concat EmptyString
            (map (fun b => k ++ EmptyString ++ replace (s1 NL) (String NL (s1 SP)) b ++ s1 NL)%string l))
  (* [[a_set]]: [a_set.replace] raises [AttributeError] *)
  | KSet _ => Err AttributeError
  end.

Fixpoint serialize_fields (d : odict) : result string :=
  match d with
  | [] => Ok EmptyString
  | (k, v) :: d' =>
      if String.eqb k EmptyString then serialize_fields d'
      else s ← serialize_field k v; r ← serialize_fields d'; Ok (s ++ r)%string
  end.

(** [key_value_list_with_message_serialize(dct)] *)
Definition key_value_list_with_message_serialize (d : odict) : result string :=
  ret ← serialize_fields d;
  match od_lookup EmptyString d with
  | None => Err KeyError
  | Some (KBytes m) => Ok (ret ++ s1 NL ++ m)%string
  (* [bytes + list] or [bytes + set] *)
  | Some _ => Err TypeError
  end.

End Kvlm.

(** ** Python [int()] on a [str], [int.from_bytes], [int.to_bytes], [hex] *)

Module PyInt.

(** [str.isspace] on an ASCII character. *)
Definition is_space (c : ascii) : bool :=
  let n := nat_of_ascii c in
  ((9 <=? n) && (n <=? 13))%nat || ((28 <=? n) && (n <=? 32))%nat.

Fixpoint lstrip (s : string) : string :=
  match s with
  | EmptyString => EmptyString
  | String c s' => if is_space c then lstrip s' else s
  end.

Fixpoint rstrip (s : string) : string :=
  match s with
  | EmptyString => EmptyString
  | String c s' =>
      match rstrip s' with
      | EmptyString => if is_space c then EmptyString else s1 c
      | r => String c r
      end
  end.

(** [s.strip()] *)
Definition strip (s : string) : string := rstrip (lstrip s).

(** The value of one digit in [base] (at most 16 here). *)
Definition digit (base : Z) (c : ascii) : option Z :=
  let n := Z.of_nat (nat_of_ascii c) in
  let v :=
    if (48 <=? n) && (n <=? 57) then n - 48
    else if (97 <=? n) && (n <=? 102) then n - 87
    else if (65 <=? n) && (n <=? 70) then n - 55
    else base in
  if v <? base then Some v else None.

(** Digits after the first, a single [_] allowed before each. *)
Fixpoint digits_rest (base : Z) (s : string) (acc : Z) : option Z :=
  match s with
  | EmptyString => Some acc
  | String c s' =>
      if ascii_dec c "_" then
        match s' with
        | String d s'' =>
            match digit base d with
            | Some v => digits_rest base s'' (acc * base + v)
            | None => None
            end
        | EmptyString => None
        end
      else
        match digit base c with
        | Some v => digits_rest base s' (acc * base + v)
        | None => None
        end
  end.

(** A non-empty digit string; [us] allows one [_] in front (after a
    [0x] prefix). *)
Definition digits (base : Z) (us : bool) (s : string) : option Z :=
  match s with
  | EmptyString => None
  | String c s' =>
      if ascii_dec c "_" then
        if us then digits_rest base (String "0"%char s') 0 else None
      else digits_rest base s 0
  end.

(** [int(s, base)] for base 10 and 16: surrounding white space, an
    optional sign, for base 16 an optional [0x]/[0X] prefix. *)
Definition py_int (base : Z) (s : string) : result Z :=
  let t := strip s in
  let '(sg, t') :=
    match t with
    | String c r =>
        if Ascii.eqb c "-" then (-1, r)
        else if Ascii.eqb c "+" then (1, r)
        else (1, t)
    | EmptyString => (1, t)
    end in
  let v :=
    match t' with
    | String z (String x r) =>
        if Ascii.eqb z "0" && (base =? 16) && (Ascii.eqb x "x" || Ascii.eqb x "X")
        then digits base true r
        else digits base false t'
    | _ => digits base false t'
    end in
  match v with
  | Some n => Ok (sg * n)
  | None => Err ValueError
  end.

(** [bytes.decode("ascii")] *)
Fixpoint decode_ascii (s : string) : result string :=
  match s with
  | EmptyString => Ok EmptyString
  | String c s' =>
      if (128 <=? nat_of_ascii c)%nat then Err UnicodeDecodeError
      else r ← decode_ascii s'; Ok (String c r)
  end.

(** [int.from_bytes(b, 'big')] *)
Fixpoint from_bytes_acc (b : string) (acc : N) : N :=
  match b with
  | EmptyString => acc
  | String c b' => from_bytes_acc b' (acc * 256 + N.of_nat (nat_of_ascii c))%N
  end.

Definition from_bytes_big (b : string) : N := from_bytes_acc b 0.

(** [hex(n)], lowercase with the [0x] prefix. *)
Definition py_hex (n : N) : string := HexString.of_N n.

Fixpoint be_bytes (k : nat) (n : Z) : string :=
  match k with
  | O => EmptyString
  | S k' => (be_bytes k' (n / 256) ++ s1 (ascii_of_nat (Z.to_nat (n mod 256))))%string
  end.

(** [n.to_bytes(20, byteorder="big")] *)
Definition to_bytes20 (n : Z) : result string :=
  if (n <? 0) || (2 ^ 160 <=? n) then Err OverflowError else Ok (be_bytes 20 n).

End PyInt.

Import PyInt.

(** ** The tree-entry codec *)

Module Tree.

Record GitTreeLeaf : Type := mkLeaf { mode : string; path : string; sha : string }.

(** [tree_parse_one(raw, start)]: the offset after the entry and the leaf. *)
Definition tree_parse_one (raw : string) (start : Z) : result (Z * GitTreeLeaf) :=
  let x := find raw SP start in
  if negb ((x - start =? 5) || (x - start =? 6)) then Err AssertionError
  else
    let m := slice raw start x in
    let y := find raw NUL x in
    let p := slice raw (x + 1) y in
    let h := slice_from (py_hex (from_bytes_big (slice raw (y + 1) (y + 21)))) 2 in
    Ok (y + 21, mkLeaf m p h).

(** The [while start < max_len] loop of [tree_parse]. *)
Fixpoint tree_parse_loop (fuel : nat) (raw : string) (start : Z)
  (ret : list GitTreeLeaf) : result (list GitTreeLeaf) :=
  if start <? zlen raw then
    match fuel with
    | O => Err OutOfFuel
    | S f =>
        '(start', leaf) ← tree_parse_one raw start;
        tree_parse_loop f raw start' (ret ++ [leaf])
    end
  else Ok ret.

Definition tree_parse (fuel : nat) (raw : string) : result (list GitTreeLeaf) :=
  tree_parse_loop fuel raw 0 [].

(** [tree_serialize(obj)] *)
Fixpoint tree_serialize (items : list GitTreeLeaf) : result string :=
  match items with
  | [] => Ok EmptyString
  | leaf :: items' =>
      n ← py_int 16 (sha leaf);
      b ← to_bytes20 n;
      r ← tree_serialize items';
      Ok (mode leaf ++ s1 SP ++ path leaf ++ s1 NUL ++ b ++ r)%string
  end.

End Tree.

Import Tree.

(** ** Objects: [GitBlob], [GitTree], [GitCommit], [GitTag] *)

Module Obj.

Inductive GitObject : Type :=
| GitBlob (blobdata : string)
| GitTree (items : list GitTreeLeaf)
| GitCommit (key_value_list_with_message : Kvlm.odict)
| GitTag (key_value_list_with_message : Kvlm.odict).

(** The class attribute [fmt]. *)
Definition fmt (o : GitObject) : string :=
  match o with
  | GitBlob _ => "blob"
  | GitTree _ => "tree"
  | GitCommit _ => "commit"
  | GitTag _ => "tag"
  end.

(** [obj.serialize()] *)
Definition serialize (o : GitObject) : result string :=
  match o with
  | GitBlob d => Ok d
  | GitTree items => tree_serialize items
  | GitCommit d | GitTag d => Kvlm.key_value_list_with_message_serialize d
  end.

(** [c(repo, data)] for the constructor [c] picked by [object_read];
    [None] for an unknown type tag. *)
Definition construct (fuel : nat) (f data : string) : option (result GitObject) :=
  if String.eqb f "commit" then
    Some (d ← Kvlm.key_value_list_with_message_parse fuel data; Ok (GitCommit d))
  else if String.eqb f "tree" then
    Some (items ← tree_parse fuel data; Ok (GitTree items))
  else if String.eqb f "tag" then
    Some (d ← Kvlm.key_value_list_with_message_parse fuel data; Ok (GitTag d))
  else if String.eqb f "blob" then Some (Ok (GitBlob data))
  else None.

End Obj.

Import Obj.

(** ** The file system *)

Module FS.

Inductive node : Type := Dir | File (contents : string).

(** A file system maps an absolute path, as its list of components, to
    the node found there; the root [[]] is always a directory. *)
Abbreviation fs := (gmap (list string) node).

Definition node_at (st : fs) (p : list string) : option node :=
  match p with [] => Some Dir | _ => st !! p end.

(** [os.path.exists] and [os.path.isdir] *)
Definition exists_ (st : fs) (p : list string) : bool :=
  match node_at st p with Some _ => true | None => false end.
Definition isdir (st : fs) (p : list string) : bool :=
  match node_at st p with Some Dir => true | _ => false end.

(** Components of a path string, split at ['/']. *)
Fixpoint split_slash (s : string) : list string :=
  match s with
  | EmptyString => [EmptyString]
  | String c s' =>
      match split_slash s' with
      | [] => [s1 c]
      | w :: ws => if ascii_dec c "/" then EmptyString :: w :: ws
                   else String c w :: ws
      end
  end.

(** The path [os.path.join(base, s)] names, after the operating system
    has resolved empty components, [.] and [..]. *)
Definition join1 (base : list string) (s : string) : list string :=
  let base := match s with String "/"%char _ => [] | _ => base end in
  fold_left (fun acc c =>
      if String.eqb c EmptyString || String.eqb c "." then acc
      else if String.eqb c ".." then removelast acc
      else acc ++ [c]) (split_slash s) base.

Definition join (base : list string) (parts : list string) : list string :=
  fold_left join1 parts base.

(** [path.startswith(prefix)] *)
Definition startswith (s pre : string) : bool := String.prefix pre s.

(** [open(p, "rb").read()] *)
Definition read_bytes (st : fs) (p : list string) : result string :=
  match node_at st p with
  | Some (File c) => Ok c
  | Some Dir => Err IsADirectoryError
  | None =>
      match node_at st (removelast p) with
      | Some (File _) => Err NotADirectoryError
      | _ => Err FileNotFoundError
      end
  end.

(** Text-mode decoding with universal newlines: ["\r\n"] and a lone
    ["\r"] read as ["\n"].  Reference files are ASCII text. *)
Fixpoint universal_newlines (s : string) : string :=
  match s with
  | EmptyString => EmptyString
  | String c s' =>
      if (nat_of_ascii c =? 13)%nat then
        match s' with
        | String d s'' =>
            if (nat_of_ascii d =? 10)%nat then String NL (universal_newlines s'')
            else String NL (universal_newlines s')
        | EmptyString => s1 NL
        end
      else String c (universal_newlines s')
  end.

(** [open(p, "r").read()] *)
Definition read_text (st : fs) (p : list string) : result string :=
  c ← read_bytes st p; Ok (universal_newlines c).

(** [os.listdir(p)]: the names in directory [p], in the order of the map
    (Python gives no order either). *)
Definition listdir (st : fs) (p : list string) : list string :=
  omap (fun '(k, _) =>
          match last k with
          | Some n => if decide (removelast k = p) then Some n else None
          | None => None
          end) (map_to_list st).

(** A state-and-error monad for the code that writes files: an exception
    keeps the effects made before it. *)
Definition M (A : Type) : Type := fs -> result A * fs.

Definition mret {A} (a : A) : M A := fun st => (Ok a, st).
Definition mthrow {A} (e : exn) : M A := fun st => (Err e, st).
Definition mbind {A B} (m : M A) (k : A -> M B) : M B :=
  fun st => match m st with
            | (Ok a, st') => k a st'
            | (Err e, st') => (Err e, st')
            end.
Definition mget : M fs := fun st => (Ok st, st).
Definition mput (st : fs) : M unit := fun _ => (Ok tt, st).
Definition lift {A} (r : result A) : M A := fun st => (r, st).

Notation "'do' x <- m 'in' k" := (mbind m (fun x => k))
  (at level 200, x name, m at level 100, k at level 200, right associativity).

(** [os.mkdir(p)] *)
Definition mkdir (p : list string) : M unit :=
  do st <- mget in
  if exists_ st p then mthrow FileExistsError
  else match node_at st (removelast p) with
       | Some Dir => mput (<[p := Dir]> st)
       | Some (File _) => mthrow NotADirectoryError
       | None => mthrow FileNotFoundError
       end.

(** [os.makedirs(p)] on the reversed component list [rp]: make the parent
    first when it is missing ([FileExistsError] from that call is
    ignored), then [mkdir]. *)
Fixpoint makedirs_rev (rp : list string) : M unit :=
  match rp with
  | [] => mthrow FileExistsError
  | _ :: rhead =>
      do st <- mget in
      do _ <- (if exists_ st (rev rhead) then mret tt
            else fun st0 =>
                   match makedirs_rev rhead st0 with
                   | (Err FileExistsError, st1) => (Ok tt, st1)
                   | r => r
                   end) in
      mkdir (rev rp)
  end.

Definition makedirs (p : list string) : M unit := makedirs_rev (rev p).

(** [open(p, "wb").write(data)] *)
Definition write_bytes (p : list string) (data : string) : M unit :=
  do st <- mget in
  match node_at st p with
  | Some Dir => mthrow IsADirectoryError
  | _ =>
      match node_at st (removelast p) with
      | Some Dir => mput (<[p := File data]> st)
      | Some (File _) => mthrow NotADirectoryError
      | None => mthrow FileNotFoundError
      end
  end.

End FS.

Import FS.

(** ** The repository: object store, references, name resolution *)

Module Repo.

Section Store.

(** [repo.gitdir], as path components. *)
Variable gitdir : list string.
(** [zlib.decompress]; [None] for [zlib.error]. *)
Variable decompress : string -> option string.
(** [zlib.compress] *)
Variable compress : string -> string.
(** [hashlib.sha1(b).hexdigest()] *)
Variable sha1_hexdigest : string -> string.

(** [repo_path(repo, *parts)] *)
Definition repo_path (parts : list string) : list string := join gitdir parts.

(** [repo_dir(repo, *parts, mkdir=False)] *)
Definition repo_dir (st : fs) (parts : list string) : result (option (list string)) :=
  let p := repo_path parts in
  if exists_ st p then
    if isdir st p then Ok (Some p) else Err NotADirectoryException
  else Ok None.

(** [repo_dir(repo, *parts, mkdir=True)] *)
Definition repo_dir_mkdir (parts : list string) : M (list string) :=
  let p := repo_path parts in
  do st <- mget in
  if exists_ st p then
    if isdir st p then mret p else mthrow NotADirectoryException
  else do _ <- makedirs p in mret p.

(** [repo_file(repo, *parts, mkdir=False)] *)
Definition repo_file (st : fs) (parts : list string) : result (option (list string)) :=
  d ← repo_dir st (removelast parts);
  match d with
  | Some _ => Ok (Some (repo_path parts))
  | None => Ok None
  end.

(** [repo_file(repo, *parts, mkdir=True)] *)
Definition repo_file_mkdir (parts : list string) : M (list string) :=
  do _ <- repo_dir_mkdir (removelast parts) in mret (repo_path parts).

(** [open(p)] where [p] may be the [None] returned by [repo_file]. *)
Definition some_path (p : option (list string)) : result (list string) :=
  match p with Some q => Ok q | None => Err TypeError end.

(** The shard path parts of an object id: [sha[0:2]], [sha[2:]]. *)
Definition shard (h : string) : list string :=
  ["objects"; slice h 0 2; slice_from h 2].

(** The part of [object_read] after decompression: the envelope
    [fmt SP size NUL payload] is checked and the constructor for [fmt]
    applied to the payload. *)
Definition object_parse (fuel : nat) (raw : string) : result GitObject :=
  let x := find raw SP 0 in
  let f := slice raw 0 x in
  let y := find raw NUL x in
  size_text ← decode_ascii (slice raw x y);
  size ← py_int 10 size_text;
  if negb (size =? zlen raw - y - 1) then Err BadLength
  else match construct fuel f (slice_from raw (y + 1)) with
       | Some r => r
       | None => _ ← decode_ascii f; Err UnknownType
       end.

(** [object_read(repo, sha)] *)
Definition object_read (fuel : nat) (st : fs) (h : string) : result GitObject :=
  pth ← repo_file st (shard h);
  p ← some_path pth;
  data ← read_bytes st p;
  raw ← (match decompress data with Some r => Ok r | None => Err ZlibError end);
  object_parse fuel raw.

(** [str(n)] *)
Definition str_nat (n : nat) : string := NilEmpty.string_of_uint (Nat.to_uint n).

(** The framed bytes [obj.fmt + b' ' + str(len(data)).encode() + b'\x00' + data]. *)
Definition frame (f data : string) : string :=
  (f ++ s1 SP ++ str_nat (String.length data) ++ s1 NUL ++ data)%string.

(** [object_write(obj, actually_write)] *)
Definition object_write (o : GitObject) (actually_write : bool) : M string :=
  do data <- lift (serialize o) in
  let res := frame (fmt o) data in
  let h := sha1_hexdigest res in
  do _ <- (if actually_write then
             do p <- repo_file_mkdir (shard h) in write_bytes p (compress res)
           else mret tt) in
  mret h.

(** [open(repo_file(repo, ref), 'r').read()] *)
Definition ref_read (st : fs) (ref : string) : result string :=
  pth ← repo_file st [ref];
  p ← some_path pth;
  read_text st p.

(** [ref_resolve(repo, ref)] *)
Fixpoint ref_resolve (fuel : nat) (st : fs) (ref : string) : result string :=
  match fuel with
  | O => Err OutOfFuel
  | S f =>
      text ← ref_read st ref;
      let data := slice text 0 (-1) in
      if String.prefix "ref: " data then ref_resolve f st (slice_from data 5)
      else Ok data
  end.

Definition is_hex (c : ascii) : bool :=
  match digit 16 c with Some _ => true | None => false end.

Fixpoint all_hex (s : string) : bool :=
  match s with
  | EmptyString => true
  | String c s' => is_hex c && all_hex s'
  end.

Definition hex_4_40 (s : string) : bool :=
  all_hex s && (4 <=? String.length s)%nat && (String.length s <=? 40)%nat.

(** [re.compile(r"^[0-9a-fA-F]{4,40}$").match(s)]: [$] also matches just
    before a final newline. *)
Definition hash_re_match (s : string) : bool :=
  hex_4_40 s ||
  (match String.get (String.length s - 1) s with
   | Some c => Ascii.eqb c NL && hex_4_40 (String.substring 0 (String.length s - 1) s)
   | None => false
   end).

(** [str.lower()] on ASCII letters. *)
Fixpoint lower (s : string) : string :=
  match s with
  | EmptyString => EmptyString
  | String c s' =>
      let n := nat_of_ascii c in
      String (if ((65 <=? n) && (n <=? 90))%nat then ascii_of_nat (n + 32) else c)
             (lower s')
  end.

(** [object_resolve(repo, name)]: [None] or a list of candidates. *)
Definition object_resolve (fuel : nat) (st : fs) (name : string)
  : result (option (list string)) :=
  if String.eqb (strip name) EmptyString then Ok None
  else if String.eqb name "HEAD" then
    r ← ref_resolve fuel st "HEAD"; Ok (Some [r])
  else if hash_re_match name && (String.length name =? 40)%nat then
    Ok (Some [lower name])
  else
    let name := lower name in
    let prefix := slice name 0 2 in
    d ← repo_dir st ["objects"; prefix];
    match d with
    | None => Ok (Some [])
    | Some p =>
        let remain := slice_from name 2 in
        Ok (Some (map (fun f => prefix ++ f)%string
                      (filter (fun f => startswith f remain) (listdir st p))))
    end.

(** [obj.key_value_list_with_message[key].decode("ascii")] *)
Definition field_ascii (o : GitObject) (key : string) : result string :=
  match o with
  | GitCommit d | GitTag d =>
      match Kvlm.od_lookup key d with
      | None => Err KeyError
      | Some (Kvlm.KBytes b) => decode_ascii b
      | Some _ => Err AttributeError
      end
  | _ => Err AttributeError
  end.

(** The [while True] loop of [object_find]; [loop] bounds the iterations,
    [fuel] is passed to [object_read]. *)
Fixpoint find_loop (fuel loop : nat) (st : fs) (f : string) (follow : bool) (h : string)
  : result (option string) :=
  match loop with
  | O => Err OutOfFuel
  | S k =>
      obj ← object_read fuel st h;
      if String.eqb (fmt obj) f then Ok (Some h)
      else if negb (String.eqb (fmt obj) "tag") then Ok None
      else if negb follow then Ok (Some h)
      else if String.eqb (fmt obj) "tag" then
        h' ← field_ascii obj "object"; find_loop fuel k st f follow h'
      else if String.eqb (fmt obj) "commit" && String.eqb f "tree" then
        h' ← field_ascii obj "tree"; find_loop fuel k st f follow h'
      else Ok None
  end.

(** [object_find(repo, name, fmt, follow)]; [fmt = None] is [None]. *)
Definition object_find (fuel : nat) (st : fs) (name : string)
  (f : option string) (follow : bool) : result (option string) :=
  shas ← object_resolve fuel st name;
  match shas with
  | None | Some [] => Err NoSuchReference
  | Some [h] =>
      match f with
      | None => Ok (Some h)
      | Some f' => if String.eqb f' EmptyString then Ok (Some h) else find_loop fuel fuel st f' follow h
      end
  | Some l => Err (AmbiguousReference l)
  end.

End Store.

End Repo.

(** ** Commands built on the store: references, tags, [cat-file],
    [hash-object], [ls-tree] *)

Module Porcelain.

Local Open Scope string_scope.

(** A Python [str] is modelled by its UTF-8 bytes, so [str.encode()] is
    the identity and writing a [str] to a file opened with ['w'] writes
    those bytes ([\n] is kept as is on POSIX). *)

(** The tagger and message [tag_create] writes into an annotated tag. *)
Definition tagger : string := "The soul eater <grim@reaper.net>".
Definition tag_message : string :=
  "This is the commit message that should have come from the user" ++ s1 NL.

(** The [OrderedDict] of an annotated tag, in insertion order. *)
Definition tag_dict (sha name : string) : Kvlm.odict :=
  [("object", Kvlm.KBytes sha); ("type", Kvlm.KBytes "commit");
   ("tag", Kvlm.KBytes name); ("tagger", Kvlm.KBytes tagger);
   (EmptyString, Kvlm.KBytes tag_message)].

(** A Python value of type [int] or [str], for the expression of
    [cmd_ls_tree] that mixes them. *)
Inductive pyval : Type := PyInt (n : Z) | PyStr (s : string).

Fixpoint str_repeat (n : nat) (s : string) : string :=
  match n with O => EmptyString | S k => s ++ str_repeat k s end.

(** [a + b] *)
Definition py_add (a b : pyval) : result pyval :=
  match a, b with
  | PyInt x, PyInt y => Ok (PyInt (x + y))
  | PyStr x, PyStr y => Ok (PyStr (x ++ y))
  | _, _ => Err TypeError
  end.

(** [a * b]; a repetition count below one gives the empty string. *)
Definition py_mul (a b : pyval) : result pyval :=
  match a, b with
  | PyInt x, PyInt y => Ok (PyInt (x * y))
  | PyStr s, PyInt n | PyInt n, PyStr s => Ok (PyStr (str_repeat (Z.to_nat n) s))
  | PyStr _, PyStr _ => Err TypeError
  end.

(** [f"{v}"] *)
Definition py_format (v : pyval) : string :=
  match v with
  | PyStr s => s
  | PyInt n => NilEmpty.string_of_int (Z.to_int n)
  end.

Definition TAB : ascii := char 9.

Section Commands.

Variable gitdir : list string.
Variable decompress : string -> option string.
Variable compress : string -> string.
Variable sha1_hexdigest : string -> string.

(** [ref_create(repo, ref_name, sha)] *)
Definition ref_create (ref_name sha : string) : M unit :=
  do st <- mget in
  do pth <- lift (Repo.repo_file gitdir st ["refs/" ++ ref_name]) in
  do p <- lift (Repo.some_path pth) in
  write_bytes p (sha ++ s1 NL).

(** [tag_create(repo, name, reference, create_tag_object)]; [fuel] bounds
    the reading in [object_find]. *)
Definition tag_create (fuel : nat) (name reference : string) (create_tag_object : bool)
  : M unit :=
  do st <- mget in
  do sha <- lift (Repo.object_find gitdir decompress fuel st reference None true) in
  match sha with
  (* never taken: with [fmt=None], [object_find] returns the candidate *)
  | None => mthrow AttributeError
  | Some sha =>
      if create_tag_object then
        do tag_sha <- Repo.object_write gitdir compress sha1_hexdigest
                        (GitTag (tag_dict sha name)) true in
        ref_create ("tags/" ++ name) tag_sha
      else ref_create ("tags/" ++ name) sha
  end.

(** [object_read(repo, sha)] where [sha] may be the [None] returned by
    [object_find]: [None[0:2]] raises [TypeError]. *)
Definition read_found (fuel : nat) (st : fs) (sha : option string) : result GitObject :=
  match sha with
  | Some h => Repo.object_read gitdir decompress fuel st h
  | None => Err TypeError
  end.

(** [cat_file(repo, obj, fmt)]: the bytes written to standard output. *)
Definition cat_file (fuel : nat) (st : fs) (obj : string) (f : option string) : result string :=
  sha ← Repo.object_find gitdir decompress fuel st obj f true;
  o ← read_found fuel st sha;
  serialize o.

(** [object_hash(fd, fmt, repo)] on the bytes [data] read from [fd];
    [with_repo] is [repo is not None]. *)
Definition object_hash (fuel : nat) (data f : string) (with_repo : bool) : M string :=
  do obj <- lift (match construct fuel f data with
                  | Some r => r
                  (* [raise Exception(f"Unknown type {fmt}")] *)
                  | None => Err UnknownType
                  end) in
  Repo.object_write gitdir compress sha1_hexdigest obj with_repo.

(** One iteration of the loop of [cmd_ls_tree]: the printed line. *)
Definition ls_tree_line (fuel : nat) (st : fs) (leaf : GitTreeLeaf) : result string :=
  m ← decode_ascii (mode leaf);
  n ← py_add (PyInt (6 - zlen (mode leaf))) (PyStr m);
  paddle ← py_mul (PyStr "0") n;
  inner ← Repo.object_read gitdir decompress fuel st (sha leaf);
  inner_obj ← decode_ascii (fmt inner);
  p ← decode_ascii (path leaf);
  Ok (py_format paddle ++ s1 SP ++ inner_obj ++ s1 SP ++ sha leaf ++ s1 TAB ++ p).

(** The lines printed by the loop, and how it ends. *)
Fixpoint ls_tree_loop (fuel : nat) (st : fs) (items : list GitTreeLeaf)
  : list string * result unit :=
  match items with
  | [] => ([], Ok tt)
  | leaf :: items' =>
      match ls_tree_line fuel st leaf with
      | Err e => ([], Err e)
      | Ok line => let '(out, r) := ls_tree_loop fuel st items' in (line :: out, r)
      end
  end.

(** [obj.items] *)
Definition tree_items (o : GitObject) : result (list GitTreeLeaf) :=
  match o with GitTree items => Ok items | _ => Err AttributeError end.

(** [cmd_ls_tree(args)] once [repo_find] has found the repository. *)
Definition cmd_ls_tree (fuel : nat) (st : fs) (name : string) : list string * result unit :=
  match (sha ← Repo.object_find gitdir decompress fuel st name (Some "tree") true;
         o ← read_found fuel st sha;
         tree_items o) with
  | Ok items => ls_tree_loop fuel st items
  | Err e => ([], Err e)
  end.

End Commands.

End Porcelain.

(** ** [tree_checkout]: writing a tree's files into a directory *)

Module Checkout.

Local Open Scope string_scope.

(** [obj.blobdata] *)
Definition blobdata (o : GitObject) : result string :=
  match o with GitBlob d => Ok d | _ => Err AttributeError end.

Section Checkout.

Variable gitdir : list string.
Variable decompress : string -> option string.

(** The [for leaf in tree.items] loop of [tree_checkout(repo, tree, path)];
    [sub] is the recursive call [tree_checkout(repo, obj, dest)] and
    [fuel] is passed to [object_read]. *)
Fixpoint checkout_items (sub : GitObject -> list string -> M unit) (fuel : nat)
  (path : list string) (items : list GitTreeLeaf) : M unit :=
  match items with
  | [] => mret tt
  | leaf :: items' =>
      do st <- mget in
      do obj <- lift (Repo.object_read gitdir decompress fuel st (Tree.sha leaf)) in
      let dest := join1 path (Tree.path leaf) in
      do _ <- (if String.eqb (fmt obj) "tree" then
                 do _ <- mkdir dest in sub obj dest
               else if String.eqb (fmt obj) "blob" then
                 do data <- lift (blobdata obj) in write_bytes dest data
               else mret tt) in
      checkout_items sub fuel path items'
  end.

(** [tree_checkout(repo, tree, path)]; [depth] bounds the nesting. *)
Fixpoint tree_checkout (depth fuel : nat) (tree : GitObject) (path : list string) : M unit :=
  match depth with
  | O => mthrow OutOfFuel
  | S d =>
      do items <- lift (Porcelain.tree_items tree) in
      checkout_items (tree_checkout d fuel) fuel path items
  end.

End Checkout.

End Checkout.

(** ** [ref_list] and [show_ref]: listing references *)

Module Refs.

Local Open Scope string_scope.
Local Set Warnings "-register-all".

(** [sorted(names)] on [str]: Python compares code points, which orders
    names that are valid UTF-8 as their bytes, the order of
    [String.compare]. *)
Fixpoint insert_sorted (s : string) (l : list string) : list string :=
  match l with
  | [] => [s]
  | x :: l' =>
      match String.compare s x with
      | Gt => x :: insert_sorted s l'
      | _ => s :: l
      end
  end.

Definition sorted (l : list string) : list string := fold_right insert_sorted [] l.

(** The values of the [OrderedDict] [ref_list] builds: a resolved
    reference ([str]) or a nested dictionary. *)
Inductive refval : Type :=
| RSha (s : string)
| RDict (d : list (string * refval)).

(** A path as the absolute path string [os.path.join] gives for it. *)
Definition path_str (p : list string) : string := "/" ++ String.concat "/" p.

Section Refs.

Variable gitdir : list string.
(** The working directory of the process, which [os.listdir(None)] lists. *)
Variable cwd : list string.

(** The [for ref in sorted(os.listdir(path))] loop of [ref_list(repo,
    path)]; [sub] is the recursive call [ref_list(repo, fullpath)] and
    [fuel] is passed to [ref_resolve]. *)
Fixpoint ref_list_items (sub : list string -> result (list (string * refval))) (fuel : nat)
  (st : fs) (path : list string) (names : list string) : result (list (string * refval)) :=
  match names with
  | [] => Ok []
  | ref :: names' =>
      let fullpath := join1 path ref in
      v ← (if isdir st fullpath then
             l ← sub fullpath; Ok (RDict l)
           else
             r ← Repo.ref_resolve gitdir fuel st (path_str fullpath); Ok (RSha r));
      rest ← ref_list_items sub fuel st path names';
      Ok ((ref, v) :: rest)
  end.

(** [ref_list(repo, path)] for a path [path]; [depth] bounds the nesting. *)
Fixpoint ref_list (depth fuel : nat) (st : fs) (path : list string)
  : result (list (string * refval)) :=
  match depth with
  | O => Err OutOfFuel
  | S d => ref_list_items (ref_list d fuel st) fuel st path (sorted (listdir st path))
  end.

(** [ref_list(repo)]: [path = repo_dir(repo, 'refs')]; when that is
    [None], [os.listdir(None)] lists the working directory and
    [os.path.join(None, ref)] raises [TypeError]. *)
Definition ref_list_repo (depth fuel : nat) (st : fs) : result (list (string * refval)) :=
  p ← Repo.repo_dir gitdir st ["refs"];
  match p with
  | Some path => ref_list depth fuel st path
  | None =>
      match sorted (listdir st cwd) with
      | [] => Ok []
      | _ :: _ => Err TypeError
      end
  end.

End Refs.

(** [show_ref(repo, refs, with_hash, prefix)] on the dictionary
    [RDict refs]: the printed lines.  It is only called on dictionaries. *)
Fixpoint show_ref_dict (refs : refval) (with_hash : bool) (prefix : string) : list string :=
  match refs with
  | RSha _ => []
  | RDict d =>
      (fix loop (items : list (string * refval)) : list string :=
         match items with
         | [] => []
         | (k, v) :: items' =>
             match v with
             | RSha s =>
                 ((if with_hash then s ++ " " else EmptyString)
                  ++ (if String.eqb prefix EmptyString then EmptyString else prefix ++ "/")
                  ++ k)%string
                 :: loop items'
             | RDict _ =>
                 (show_ref_dict v with_hash
                    (prefix ++ (if String.eqb prefix EmptyString then EmptyString else "/") ++ k)
                  ++ loop items')%list
             end
         end) d
  end.

Definition show_ref (refs : list (string * refval)) (with_hash : bool) (prefix : string)
  : list string :=
  show_ref_dict (RDict refs) with_hash prefix.

End Refs.

(** ** Shapes of well-formed inputs, as the spec describes them *)

Module Shapes.

Local Open Scope string_scope.

Definition is_dec (c : ascii) : bool :=
  ((48 <=? nat_of_ascii c) && (nat_of_ascii c <=? 57))%nat.

(** An ASCII decimal numeral. *)
Fixpoint decimal_digits (s : string) : bool :=
  match s with
  | EmptyString => true
  | String c s' => is_dec c && decimal_digits s'
  end.

Fixpoint decimal_value_acc (s : string) (acc : Z) : Z :=
  match s with
  | EmptyString => acc
  | String c s' => decimal_value_acc s' (acc * 10 + (Z.of_nat (nat_of_ascii c) - 48))
  end.

Definition decimal_value (s : string) : Z := decimal_value_acc s 0.

(** The bytes of one tree entry: [mode + b' ' + path + b'\x00' + digest]. *)
Definition entry_bytes (m p d : string) : string := m ++ s1 SP ++ p ++ s1 NUL ++ d.

(** The text [tree_parse_one] renders for the digest bytes [d]. *)
Definition render_digest (d : string) : string :=
  slice_from (py_hex (from_bytes_big d)) 2.

(** A mode of 5 or 6 bytes without a space, and a path without NUL. *)
Definition entry_ok (m p : string) : Prop :=
  (String.length m = 5 \/ String.length m = 6)%nat
  /\ find_char SP m = None /\ find_char NUL p = None.

(** A complete entry [(mode, path, digest)]: 20 digest bytes. *)
Definition full_entry (e : string * string * string) : Prop :=
  let '(m, p, d) := e in entry_ok m p /\ String.length d = 20%nat.

Definition entry_of (e : string * string * string) : string :=
  let '(m, p, d) := e in entry_bytes m p d.

Definition leaf_of (e : string * string * string) : GitTreeLeaf :=
  let '(m, p, d) := e in mkLeaf m p (render_digest d).

(** The bytes of a list of entries, one after the other. *)
Fixpoint entries_bytes (es : list (string * string * string)) : string :=
  match es with
  | [] => EmptyString
  | e :: es' => entry_of e ++ entries_bytes es'
  end.

(** [ref_chain gitdir st ref n d]: reading [ref] and following [n]
    symbolic [ref: ] lines ends at a reference file holding [d] and a
    newline. *)
Inductive ref_chain (gitdir : list string) (st : fs) : string -> nat -> string -> Prop :=
| chain_direct ref d :
    Repo.ref_read gitdir st ref = Ok (d ++ s1 NL) ->
    String.prefix "ref: " d = false ->
    ref_chain gitdir st ref 0 d
| chain_symbolic ref ref' n d :
    Repo.ref_read gitdir st ref = Ok ("ref: " ++ ref' ++ s1 NL) ->
    ref_chain gitdir st ref' n d ->
    ref_chain gitdir st ref (S n) d.

(** The store effect of a persisting [object_write]: make the shard
    directory, then write the file. *)
Definition write_step (gitdir parts : list string) (c : string) : M unit :=
  do p <- Repo.repo_file_mkdir gitdir parts in write_bytes p c.

(** A lowercase hexadecimal digit, as [hex()] writes them. *)
Definition lhex (c : ascii) : bool :=
  let n := nat_of_ascii c in
  ((48 <=? n) && (n <=? 57))%nat || ((97 <=? n) && (n <=? 102))%nat.

Fixpoint all_lhex (s : string) : bool :=
  match s with
  | EmptyString => true
  | String c s' => lhex c && all_lhex s'
  end.

(** A value as a well-formed commit or tag text carries it: each newline
    of the value is followed by a space ([v.replace(b'\n', b'\n ')]). *)
Definition fold_value (v : string) : string := replace (s1 NL) (String NL (s1 SP)) v.

(** One field line: the key, a space, the folded value, a newline. *)
Definition field_bytes (k v : string) : string := k ++ s1 SP ++ fold_value v ++ s1 NL.

Fixpoint fields_bytes (fs : list (string * string)) : string :=
  match fs with
  | [] => EmptyString
  | (k, v) :: fs' => field_bytes k v ++ fields_bytes fs'
  end.

(** A key: non-empty, without a space or a newline. *)
Definition key_ok (k : string) : Prop :=
  k <> EmptyString /\ find_char SP k = None /\ find_char NL k = None.

(** The dictionary of [bytes] values for a list of fields. *)
Definition as_dict (fs : list (string * string)) : Kvlm.odict :=
  map (fun '(k, v) => (k, Kvlm.KBytes v)) fs.

(** The carriage return, which [open(..., "r")] turns into a newline. *)
Definition CR : ascii := char 13.

(** A single path component: no slash, not empty, not [.] or [..]. *)
Definition path_component (c : string) : Prop :=
  find_char "/" c = None /\ c <> EmptyString /\ c <> "." /\ c <> "..".

End Shapes.

Import Shapes.

(** ** Concrete inputs *)

Module Fixtures.

Local Open Scope string_scope.

Fixpoint rep (n : nat) (c : ascii) : string :=
  match n with O => EmptyString | S k => String c (rep k c) end.

(** [b"key line1\n line2\n\nmessage body\n"] *)
Definition kvlm_folded : string :=
  "key line1" ++ s1 NL ++ " line2" ++ s1 NL ++ s1 NL ++ "message body" ++ s1 NL.

(** [b"k a\nk b\n\nm"] and [b"k a\nk b\nk c\n\nm"] *)
Definition kvlm_twice : string :=
  "k a" ++ s1 NL ++ "k b" ++ s1 NL ++ s1 NL ++ "m".
Definition kvlm_thrice : string :=
  "k a" ++ s1 NL ++ "k b" ++ s1 NL ++ "k c" ++ s1 NL ++ s1 NL ++ "m".

(** A tree entry whose digest starts with a zero byte:
    [b"100644 f\x00" + b"\x00" + b"A" * 19]. *)
Definition entry_zero_digest : string :=
  "100644 f" ++ s1 NUL ++ s1 NUL ++ rep 19 "A".

(** A tree payload whose only entry has 3 digest bytes: [b"100644 f\x00abc"]. *)
Definition tree_truncated : string := "100644 f" ++ s1 NUL ++ "abc".

(** A repository at [/w] holding a tag, the commit it names and the
    commit's (empty) tree, stored uncompressed. *)
Definition gitdir_w : list string := ["w"; ".git"].
Definition tag_id : string := rep 40 "1".
Definition commit_id : string := rep 40 "2".
Definition tree_id : string := rep 40 "3".

Definition tag_payload : string :=
  "object " ++ commit_id ++ s1 NL ++ "type commit" ++ s1 NL ++ "tag v1" ++ s1 NL
  ++ s1 NL ++ "m" ++ s1 NL.
Definition commit_payload : string :=
  "tree " ++ tree_id ++ s1 NL ++ s1 NL ++ "m" ++ s1 NL.

Definition no_zlib (s : string) : option string := Some s.

Definition store_chain : fs :=
  <[app gitdir_w ["objects"; "11"; rep 38 "1"] := File (Repo.frame "tag" tag_payload)]>
  (<[app gitdir_w ["objects"; "22"; rep 38 "2"] := File (Repo.frame "commit" commit_payload)]>
  (<[app gitdir_w ["objects"; "33"; rep 38 "3"] := File (Repo.frame "tree" EmptyString)]>
  (<[app gitdir_w ["objects"; "11"] := Dir]>
  (<[app gitdir_w ["objects"; "22"] := Dir]>
  (<[app gitdir_w ["objects"; "33"] := Dir]>
  (<[app gitdir_w ["objects"] := Dir]>
  (<[gitdir_w := Dir]> (<[["w"] := Dir]> ∅))))))))%list.

(** [objects/44/44..4] holds [b"blob 7\x00hello\n"]: 6 payload bytes
    where 7 are declared. *)
Definition bad_id : string := rep 40 "4".
Definition store_bad_length : fs :=
  <[app gitdir_w ["objects"; "44"; rep 38 "4"] := File ("blob 7" ++ s1 NUL ++ "hello" ++ s1 NL)]>
  (<[app gitdir_w ["objects"; "44"] := Dir]> store_chain).

(** [HEAD] holds [ref: refs/heads/main], which holds [commit_id]. *)
Definition store_refs : fs :=
  <[app gitdir_w ["HEAD"] := File ("ref: refs/heads/main" ++ s1 NL)]>
  (<[app gitdir_w ["refs"; "heads"; "main"] := File (commit_id ++ s1 NL)]>
  (<[app gitdir_w ["refs"; "heads"] := Dir]>
  (<[app gitdir_w ["refs"] := Dir]> store_chain)))%list.

(** A hash function that names every object [aa...a]. *)
Definition sha_a (_ : string) : string := rep 40 "a".

(** [store_refs] with an empty [refs/tags] directory. *)
Definition store_tags : fs :=
  <[app gitdir_w ["refs"; "tags"] := Dir]> store_refs.

(** [store_chain] with a tree [55..5] holding one entry
    [b"100644 a\x00" + b"x" * 20]. *)
Definition ls_tree_id : string := rep 40 "5".
Definition ls_leaf : GitTreeLeaf := mkLeaf "100644" "a" (render_digest (rep 20 "x")).
Definition store_ls : fs :=
  <[app gitdir_w ["objects"; "55"; rep 38 "5"]
      := File (Repo.frame "tree" ("100644 a" ++ s1 NUL ++ rep 20 "x"))]>
  (<[app gitdir_w ["objects"; "55"] := Dir]> store_chain).

(** A blob [66..6] holding [b"hi"], and a tree's entries: that blob as
    [a] and the commit [commit_id] as a submodule [m]; the checkout
    directory [/out] exists. *)
Definition blob_id : string := rep 40 "6".
Definition co_leaves : list GitTreeLeaf :=
  [mkLeaf "100644" "a" blob_id; mkLeaf "160000" "m" commit_id].
Definition store_co : fs :=
  <[["out"] := Dir]>
  (<[app gitdir_w ["objects"; "66"; rep 38 "6"] := File (Repo.frame "blob" "hi")]>
  (<[app gitdir_w ["objects"; "66"] := Dir]> store_chain)).

(** [store_tags] with the tags [v0] (the tree) and [v1] (the commit). *)
Definition store_lt : fs :=
  <[app gitdir_w ["refs"; "tags"; "v1"] := File (commit_id ++ s1 NL)]>
  (<[app gitdir_w ["refs"; "tags"; "v0"] := File (tree_id ++ s1 NL)]> store_tags).

End Fixtures.

Import Fixtures.

(** * Claims *)

(** ** C1 *)

(** C1 (code bug).  The folded input [key line1\n line2\n\nmessage body\n]
    parses to [key -> line1\nline2] and message [message body\n], as the
    spec says; serializing that dictionary drops the space between the key
    and its value ([k + b'' + v]), so the round trip does not give the
    input back. *)
Lemma kvlm_roundtrip_breaks :
  Kvlm.key_value_list_with_message_parse 10 kvlm_folded
    = Ok [("key", Kvlm.KBytes ("line1" ++ s1 NL ++ "line2"));
          (EmptyString, Kvlm.KBytes ("message body" ++ s1 NL))]%string
  /\ (d ← Kvlm.key_value_list_with_message_parse 10 kvlm_folded;
      Kvlm.key_value_list_with_message_serialize d)
       = Ok ("keyline1" ++ s1 NL ++ " line2" ++ s1 NL ++ s1 NL ++ "message body" ++ s1 NL)%string
  /\ ("keyline1" ++ s1 NL ++ " line2" ++ s1 NL ++ s1 NL ++ "message body" ++ s1 NL)%string
       <> kvlm_folded.
Proof. split; [reflexivity | split; [reflexivity | discriminate]]. Qed.

(** ** C5 *)

(** C5 (code bug).  A key seen twice is stored as the Python set
    [{b"a", b"b"}], not as the list [[b"a", b"b"]]; a third occurrence
    raises [TypeError] (a set is unhashable), and serializing the
    set-valued dictionary raises [AttributeError]. *)
Lemma kvlm_repeat_key_set :
  Kvlm.key_value_list_with_message_parse 10 kvlm_twice
    = Ok [("k", Kvlm.KSet ["a"; "b"]); (EmptyString, Kvlm.KBytes "m")]%string
  /\ Kvlm.key_value_list_with_message_parse 10 kvlm_thrice = Err TypeError
  /\ (d ← Kvlm.key_value_list_with_message_parse 10 kvlm_twice;
      Kvlm.key_value_list_with_message_serialize d) = Err AttributeError.
Proof. split; [reflexivity | split; reflexivity]. Qed.

(** ** C3 *)

(** C3 (code bug).  A digest whose first byte is zero is rendered without
    its leading zeros: 38 hexadecimal characters instead of 40. *)
Lemma tree_digest_leading_zero :
  tree_parse_one entry_zero_digest 0
    = Ok (29, mkLeaf "100644" "f" "41414141414141414141414141414141414141")
  /\ String.length "41414141414141414141414141414141414141" = 38%nat.
Proof. split; reflexivity. Qed.

(** ** C4 *)

(** C4 (code bug).  The three-character hex name [111] is not a short hash
    of at least 4 characters, yet the shard [objects/11] is scanned and the
    tag's id comes back as a candidate. *)
Lemma resolve_three_char_prefix :
  Repo.object_resolve gitdir_w 5 store_chain "111" = Ok (Some [tag_id]).
Proof. vm_compute. reflexivity. Qed.

(** ** Facts about the byte-string primitives *)

Module StrFacts.

Local Open Scope string_scope.
Local Open Scope Z_scope.

Lemma bind_ok {A B} (a : A) (f : A -> result B) : (Ok a ≫= f) = f a.
Proof. reflexivity. Qed.

Lemma bind_err {A B} (e : exn) (f : A -> result B) : (Err e ≫= f) = Err e.
Proof. reflexivity. Qed.

Lemma length_app (a b : string) :
  String.length (a ++ b) = (String.length a + String.length b)%nat.
Proof. induction a as [|c a IH]; simpl; auto. Qed.

Lemma zlen_app (a b : string) : zlen (a ++ b) = zlen a + zlen b.
Proof. unfold zlen. rewrite length_app. lia. Qed.

Lemma zlen_nonneg (a : string) : 0 <= zlen a.
Proof. unfold zlen. lia. Qed.

Lemma sdrop_app (a b : string) : sdrop (String.length a) (a ++ b) = b.
Proof. induction a as [|c a IH]; simpl; auto. Qed.

Lemma stake_min (k : nat) (s : string) :
  stake (Nat.min k (String.length s)) s = stake k s.
Proof.
  revert k. induction s as [|c s IH]; intros [|k]; simpl; auto.
  now rewrite IH.
Qed.

Lemma stake_all (s : string) : stake (String.length s) s = s.
Proof. induction s as [|c s IH]; simpl; congruence. Qed.

Lemma stake_app (a b : string) : stake (String.length a) (a ++ b) = a.
Proof. induction a as [|c a IH]; simpl; congruence. Qed.

Lemma find_char_app_none (c : ascii) (a b : string) :
  find_char c a = None ->
  find_char c (a ++ b)
  = match find_char c b with Some k => Some (String.length a + k)%nat | None => None end.
Proof.
  induction a as [|d a IH]; intros H.
  - change (EmptyString ++ b) with b. destruct (find_char c b); reflexivity.
  - simpl in *.
    destruct (ascii_dec c d); [discriminate|].
    destruct (find_char c a) eqn:E; [discriminate|].
    rewrite IH by reflexivity. destruct (find_char c b); reflexivity.
Qed.

Lemma find_char_head (c : ascii) (b : string) : find_char c (String c b) = Some 0%nat.
Proof. simpl. destruct (ascii_dec c c); congruence. Qed.

Lemma find_at (pre s : string) (c : ascii) :
  find (pre ++ s) c (zlen pre)
  = match find_char c s with Some k => zlen pre + Z.of_nat k | None => -1 end.
Proof.
  unfold find. pose proof (zlen_nonneg pre) as H0.
  destruct (zlen pre <? 0) eqn:E; [lia|].
  rewrite zlen_app. pose proof (zlen_nonneg s).
  destruct (zlen pre + zlen s <? zlen pre) eqn:E2; [lia|].
  replace (Z.to_nat (zlen pre)) with (String.length pre) by (unfold zlen; lia).
  rewrite sdrop_app. reflexivity.
Qed.

Lemma slice_at (pre s : string) (k : nat) :
  slice (pre ++ s) (zlen pre) (zlen pre + Z.of_nat k) = stake k s.
Proof.
  unfold slice, clamp. pose proof (zlen_nonneg pre). pose proof (zlen_nonneg s).
  rewrite zlen_app.
  destruct (zlen pre <? 0) eqn:E1; [apply Z.ltb_lt in E1; lia|].
  destruct (zlen pre + Z.of_nat k <? 0) eqn:E2; [apply Z.ltb_lt in E2; lia|].
  rewrite (Z.min_l (zlen pre)) by lia.
  replace (Z.to_nat (zlen pre)) with (String.length pre) by (unfold zlen; lia).
  rewrite sdrop_app, <- (stake_min k).
  f_equal. unfold zlen in *. lia.
Qed.

Lemma slice_from_at (pre s : string) : slice_from (pre ++ s) (zlen pre) = s.
Proof.
  unfold slice_from. rewrite zlen_app.
  replace (zlen s) with (Z.of_nat (String.length s)) by reflexivity.
  rewrite slice_at. apply stake_all.
Qed.

End StrFacts.

(** ** Facts about the tree-entry codec *)

Module TreeFacts.

Import StrFacts.
Local Open Scope string_scope.
Local Open Scope Z_scope.

Lemma sapp_assoc (a b c : string) : a ++ (b ++ c) = (a ++ b) ++ c.
Proof.
  induction a as [|x a IH]; [reflexivity|].
  change (String x (a ++ (b ++ c)) = String x ((a ++ b) ++ c)). now rewrite IH.
Qed.

Lemma stake_short (k : nat) (s : string) : (String.length s <= k)%nat -> stake k s = s.
Proof.
  revert k. induction s as [|c s IH]; intros [|k] H; simpl in *; try lia; auto.
  rewrite IH by lia. reflexivity.
Qed.

Lemma find_char_sp_path (p rest : string) :
  find_char NUL p = None ->
  find_char NUL (s1 SP ++ p ++ s1 NUL ++ rest) = Some (S (String.length p)).
Proof.
  intros H. change (s1 SP ++ p ++ s1 NUL ++ rest) with (String SP (p ++ String NUL rest)).
  simpl find_char at 1. rewrite find_char_app_none by exact H.
  rewrite find_char_head. do 2 f_equal. lia.
Qed.

Lemma tree_parse_loop_eq (fuel : nat) (raw : string) (start : Z) (ret : list GitTreeLeaf) :
  tree_parse_loop fuel raw start ret
  = if start <? zlen raw then
      match fuel with
      | O => Err OutOfFuel
      | S f => '(start', leaf) ← tree_parse_one raw start;
               tree_parse_loop f raw start' (ret ++ [leaf])
      end
    else Ok ret.
Proof. destruct fuel; reflexivity. Qed.

(** One entry at offset [zlen pre] is read whole: mode, path, and the
    (at most 20) bytes after the NUL. *)
Lemma tree_parse_one_at (pre m p rest : string) :
  entry_ok m p ->
  tree_parse_one (pre ++ entry_bytes m p rest) (zlen pre)
  = Ok (zlen pre + zlen m + 1 + zlen p + 21,
        mkLeaf m p (render_digest (stake 20 rest))).
Proof.
  intros (Hm & HmS & HpN). unfold entry_bytes.
  set (raw := pre ++ m ++ s1 SP ++ p ++ s1 NUL ++ rest).
  assert (Hx : find raw SP (zlen pre) = zlen pre + zlen m).
  { unfold raw. rewrite find_at, find_char_app_none by exact HmS.
    change (s1 SP ++ p ++ s1 NUL ++ rest) with (String SP (p ++ s1 NUL ++ rest)).
    rewrite find_char_head. unfold zlen. lia. }
  assert (Hy : find raw NUL (zlen pre + zlen m) = zlen pre + zlen m + 1 + zlen p).
  { assert (E : raw = (pre ++ m) ++ (s1 SP ++ p ++ s1 NUL ++ rest))
      by (unfold raw; rewrite <- !sapp_assoc; reflexivity).
    rewrite E. replace (zlen pre + zlen m) with (zlen (pre ++ m)) by (rewrite zlen_app; lia).
    rewrite find_at, find_char_sp_path by exact HpN. rewrite zlen_app. unfold zlen. lia. }
  assert (Hmode : slice raw (zlen pre) (zlen pre + zlen m) = m).
  { unfold raw. change (zlen m) with (Z.of_nat (String.length m)).
    rewrite slice_at. apply stake_app. }
  assert (Hpath : slice raw (zlen pre + zlen m + 1) (zlen pre + zlen m + 1 + zlen p) = p).
  { assert (E : raw = (pre ++ m ++ s1 SP) ++ (p ++ s1 NUL ++ rest))
      by (unfold raw; rewrite <- !sapp_assoc; reflexivity).
    rewrite E. replace (zlen pre + zlen m + 1) with (zlen (pre ++ m ++ s1 SP))
      by (rewrite !zlen_app; change (zlen (s1 SP)) with 1; lia).
    change (zlen p) with (Z.of_nat (String.length p)).
    rewrite slice_at. apply stake_app. }
  assert (Hdig : slice raw (zlen pre + zlen m + 1 + zlen p + 1)
                   (zlen pre + zlen m + 1 + zlen p + 21) = stake 20 rest).
  { assert (E : raw = (pre ++ m ++ s1 SP ++ p ++ s1 NUL) ++ rest)
      by (unfold raw; rewrite <- !sapp_assoc; reflexivity).
    rewrite E. replace (zlen pre + zlen m + 1 + zlen p + 1)
      with (zlen (pre ++ m ++ s1 SP ++ p ++ s1 NUL))
      by (rewrite !zlen_app; change (zlen (s1 SP)) with 1; change (zlen (s1 NUL)) with 1; lia).
    replace (zlen pre + zlen m + 1 + zlen p + 21)
      with (zlen (pre ++ m ++ s1 SP ++ p ++ s1 NUL) + Z.of_nat 20)
      by (rewrite !zlen_app; change (zlen (s1 SP)) with 1; change (zlen (s1 NUL)) with 1; lia).
    apply slice_at. }
  unfold tree_parse_one. cbv zeta. fold raw. rewrite Hx.
  replace (zlen pre + zlen m - zlen pre) with (zlen m) by lia.
  assert (Hc : ((zlen m =? 5) || (zlen m =? 6)) = true)
    by (unfold zlen; destruct Hm as [-> | ->]; reflexivity).
  rewrite Hc. cbn [negb]. rewrite Hy, Hmode, Hpath, Hdig. reflexivity.
Qed.

Lemma zlen_entry (m p d : string) :
  zlen (entry_bytes m p d) = zlen m + 1 + zlen p + 1 + zlen d.
Proof.
  unfold entry_bytes. rewrite !zlen_app.
  change (zlen (s1 SP)) with 1. change (zlen (s1 NUL)) with 1. lia.
Qed.

(** The loop reads every complete entry, then the final one, then stops. *)
Lemma tree_parse_loop_entries (m p t : string) (es : list (string * string * string)) :
  entry_ok m p -> (String.length t < 20)%nat -> Forall full_entry es ->
  forall (pre : string) (acc : list GitTreeLeaf),
  tree_parse_loop (S (length es)) (pre ++ entries_bytes es ++ entry_bytes m p t) (zlen pre) acc
  = Ok (acc ++ map leaf_of es ++ [mkLeaf m p (render_digest t)])%list.
Proof.
  intros Hmp Ht HF. induction HF as [|[[m0 p0] d0] es [Hmp0 Hd0] HF IH]; intros pre acc.
  - change (entries_bytes []) with EmptyString.
    change (EmptyString ++ entry_bytes m p t) with (entry_bytes m p t).
    rewrite tree_parse_loop_eq.
    pose proof (zlen_nonneg m). pose proof (zlen_nonneg p). pose proof (zlen_nonneg t).
    rewrite (proj2 (Z.ltb_lt _ _)) by (rewrite zlen_app, zlen_entry; lia).
    rewrite tree_parse_one_at by exact Hmp. rewrite bind_ok. cbv beta iota.
    rewrite tree_parse_loop_eq.
    assert (Htz : zlen t < 20) by (unfold zlen; lia).
    rewrite (proj2 (Z.ltb_ge _ _)) by (rewrite zlen_app, zlen_entry; lia).
    rewrite stake_short by lia. reflexivity.
  - cbn [entries_bytes entry_of length map].
    rewrite <- (sapp_assoc (entry_bytes m0 p0 d0)).
    rewrite tree_parse_loop_eq.
    pose proof (zlen_nonneg m0). pose proof (zlen_nonneg p0).
    pose proof (zlen_nonneg (entries_bytes es)). pose proof (zlen_nonneg (entry_bytes m p t)).
    pose proof (zlen_nonneg d0).
    rewrite (proj2 (Z.ltb_lt _ _)) by (rewrite !zlen_app, zlen_entry; lia).
    assert (E : entry_bytes m0 p0 d0 ++ entries_bytes es ++ entry_bytes m p t
                = entry_bytes m0 p0 (d0 ++ entries_bytes es ++ entry_bytes m p t))
      by (unfold entry_bytes; rewrite <- !sapp_assoc; reflexivity).
    rewrite E, tree_parse_one_at by exact Hmp0. rewrite bind_ok. cbv beta iota.
    replace (stake 20 (d0 ++ entries_bytes es ++ entry_bytes m p t)) with d0
      by (rewrite <- Hd0; symmetry; apply stake_app).
    rewrite <- E, sapp_assoc.
    replace (zlen pre + zlen m0 + 1 + zlen p0 + 21) with (zlen (pre ++ entry_bytes m0 p0 d0))
      by (assert (zlen d0 = 20) by (unfold zlen; rewrite Hd0; reflexivity);
          rewrite zlen_app, zlen_entry; lia).
    rewrite IH. rewrite <- app_assoc. reflexivity.
Qed.

End TreeFacts.

(** ** Facts about the object envelope *)

Module EnvFacts.

Import StrFacts TreeFacts.
Local Open Scope string_scope.
Local Open Scope Z_scope.

Lemma is_dec_bounds (c : ascii) :
  is_dec c = true -> (48 <= nat_of_ascii c <= 57)%nat.
Proof.
  unfold is_dec. intros H. apply andb_prop in H as [H1 H2].
  apply Nat.leb_le in H1, H2. lia.
Qed.

Lemma is_dec_neq (c d : ascii) : is_dec c = true -> is_dec d = false -> c <> d.
Proof. intros H1 H2 ->. congruence. Qed.

Lemma is_dec_not_space (c : ascii) : is_dec c = true -> is_space c = false.
Proof.
  intros H. apply is_dec_bounds in H. unfold is_space.
  apply orb_false_intro; apply andb_false_iff;
    first [left; apply Nat.leb_gt; lia | right; apply Nat.leb_gt; lia].
Qed.

Lemma digit_dec (c : ascii) :
  is_dec c = true -> digit 10 c = Some (Z.of_nat (nat_of_ascii c) - 48).
Proof.
  intros H. apply is_dec_bounds in H. unfold digit. cbv zeta.
  rewrite (proj2 (Z.leb_le 48 _)) by lia. rewrite (proj2 (Z.leb_le _ 57)) by lia.
  cbn [andb]. rewrite (proj2 (Z.ltb_lt _ 10)) by lia. reflexivity.
Qed.

Lemma digits_rest_dec (ds : string) (acc : Z) :
  decimal_digits ds = true -> digits_rest 10 ds acc = Some (decimal_value_acc ds acc).
Proof.
  revert acc. induction ds as [|c ds IH]; intros acc H; [reflexivity|].
  simpl in H. apply andb_prop in H as [Hc Hds]. simpl.
  destruct (ascii_dec c "_") as [E|E].
  - exfalso. apply (is_dec_neq c "_"); [exact Hc | reflexivity | exact E].
  - rewrite digit_dec by exact Hc. apply IH, Hds.
Qed.

Lemma decimal_no_nul (ds : string) : decimal_digits ds = true -> find_char NUL ds = None.
Proof.
  induction ds as [|c ds IH]; intros H; [reflexivity|].
  simpl in H. apply andb_prop in H as [Hc Hds]. cbn [find_char].
  destruct (ascii_dec NUL c) as [E|E].
  - exfalso. apply (is_dec_neq c NUL); [exact Hc | reflexivity | auto].
  - rewrite IH by exact Hds. reflexivity.
Qed.

Lemma rstrip_decimal (ds : string) : decimal_digits ds = true -> rstrip ds = ds.
Proof.
  induction ds as [|c ds IH]; intros H; [reflexivity|].
  simpl in H. apply andb_prop in H as [Hc Hds]. simpl. rewrite IH by exact Hds.
  destruct ds as [|c' ds']; [|reflexivity].
  rewrite is_dec_not_space by exact Hc. reflexivity.
Qed.

Lemma decode_ascii_decimal (ds : string) :
  decimal_digits ds = true -> decode_ascii ds = Ok ds.
Proof.
  induction ds as [|c ds IH]; intros H; [reflexivity|].
  simpl in H. apply andb_prop in H as [Hc Hds]. apply is_dec_bounds in Hc. cbn [decode_ascii].
  rewrite (proj2 (Nat.leb_gt 128 (nat_of_ascii c))) by lia. rewrite IH by exact Hds. reflexivity.
Qed.

Lemma decode_ascii_space_decimal (ds : string) :
  decimal_digits ds = true -> decode_ascii (s1 SP ++ ds) = Ok (s1 SP ++ ds).
Proof.
  intros H. change (s1 SP ++ ds) with (String SP ds). cbn [decode_ascii].
  change (128 <=? nat_of_ascii SP)%nat with false. cbv iota.
  rewrite decode_ascii_decimal by exact H. reflexivity.
Qed.

(** [int(b" " + ds)] is the value of the numeral [ds]. *)
Lemma py_int_space_decimal (ds : string) :
  decimal_digits ds = true -> ds <> EmptyString ->
  py_int 10 (s1 SP ++ ds) = Ok (decimal_value ds).
Proof.
  intros H Hne. destruct ds as [|c r]; [congruence|].
  pose proof H as H'. simpl in H'. apply andb_prop in H' as [Hc Hr].
  unfold py_int.
  replace (strip (s1 SP ++ String c r)) with (String c r)
    by (unfold strip; simpl; rewrite (is_dec_not_space c Hc);
        symmetry; apply rstrip_decimal, H).
  cbv beta iota zeta.
  destruct (Ascii.eqb_spec c "-") as [E|_].
  { exfalso. apply (is_dec_neq c "-"); auto. }
  destruct (Ascii.eqb_spec c "+") as [E|_].
  { exfalso. apply (is_dec_neq c "+"); auto. }
  cbv beta iota zeta.
  assert (Hd : digits 10 false (String c r) = Some (decimal_value (String c r))).
  { unfold digits. destruct (ascii_dec c "_") as [E|_].
    - exfalso. apply (is_dec_neq c "_"); auto.
    - apply digits_rest_dec, H. }
  destruct r as [|x r'].
  - rewrite Hd. f_equal. lia.
  - change (10 =? 16) with false. rewrite andb_false_r. cbn [andb].
    rewrite Hd. f_equal. lia.
Qed.

(** Positions in an envelope [f ++ " " ++ ds ++ "\x00" ++ payload]. *)
Lemma envelope_positions (f ds payload : string) :
  find_char SP f = None -> decimal_digits ds = true ->
  let raw := f ++ s1 SP ++ ds ++ s1 NUL ++ payload in
  find raw SP 0 = zlen f
  /\ slice raw 0 (zlen f) = f
  /\ find raw NUL (zlen f) = zlen f + 1 + zlen ds
  /\ slice raw (zlen f) (zlen f + 1 + zlen ds) = s1 SP ++ ds
  /\ zlen raw - (zlen f + 1 + zlen ds) - 1 = zlen payload
  /\ slice_from raw (zlen f + 1 + zlen ds + 1) = payload.
Proof.
  intros HfS Hds raw.
  assert (HdN := decimal_no_nul ds Hds).
  repeat split.
  - change (find (EmptyString ++ raw) SP (zlen EmptyString) = zlen f).
    rewrite find_at. unfold raw. rewrite find_char_app_none by exact HfS.
    change (s1 SP ++ ds ++ s1 NUL ++ payload) with (String SP (ds ++ s1 NUL ++ payload)).
    rewrite find_char_head. unfold zlen. simpl. lia.
  - change (slice (EmptyString ++ raw) (zlen EmptyString)
              (zlen EmptyString + Z.of_nat (String.length f)) = f).
    rewrite slice_at. unfold raw. apply stake_app.
  - unfold raw. rewrite find_at, find_char_sp_path by exact HdN. unfold zlen. lia.
  - unfold raw.
    replace (zlen f + 1 + zlen ds) with (zlen f + Z.of_nat (String.length (s1 SP ++ ds)))
      by (rewrite length_app; unfold zlen; simpl; lia).
    rewrite slice_at, (sapp_assoc (s1 SP) ds). apply stake_app.
  - unfold raw. rewrite !zlen_app. change (zlen (s1 SP)) with 1.
    change (zlen (s1 NUL)) with 1. lia.
  - unfold raw.
    replace (f ++ s1 SP ++ ds ++ s1 NUL ++ payload) with ((f ++ s1 SP ++ ds ++ s1 NUL) ++ payload)
      by (rewrite <- !sapp_assoc; reflexivity).
    replace (zlen f + 1 + zlen ds + 1) with (zlen (f ++ s1 SP ++ ds ++ s1 NUL))
      by (rewrite !zlen_app; change (zlen (s1 SP)) with 1; change (zlen (s1 NUL)) with 1; lia).
    apply slice_from_at.
Qed.

End EnvFacts.

(** ** Facts about references *)

Module RefFacts.

Import StrFacts TreeFacts.
Local Open Scope string_scope.
Local Open Scope Z_scope.

(** [text[:-1]] drops the final character. *)
Lemma slice_drop_last (d : string) (c : ascii) : slice (d ++ s1 c) 0 (-1) = d.
Proof.
  unfold slice, clamp. rewrite zlen_app. change (zlen (s1 c)) with 1.
  pose proof (zlen_nonneg d) as Hd.
  replace (0 <? 0) with false by reflexivity.
  replace (-1 <? 0) with true by reflexivity.
  rewrite Z.min_l by lia. rewrite Z.max_r by lia.
  replace (-1 + (zlen d + 1)) with (zlen d) by lia.
  unfold zlen. rewrite Nat2Z.id. simpl (Z.to_nat 0). rewrite Nat.sub_0_r.
  apply stake_app.
Qed.

Lemma prefix_app (a b : string) : String.prefix a (a ++ b) = true.
Proof.
  induction a as [|c a IH]; [destruct b; reflexivity|].
  change (String c a ++ b) with (String c (a ++ b)). cbn [String.prefix]. destruct (ascii_dec c c) as [_|E]; [exact IH|].
  exfalso. apply E. reflexivity.
Qed.

Lemma slice_from_ref (r : string) : slice_from ("ref: " ++ r) 5 = r.
Proof. exact (slice_from_at "ref: " r). Qed.

Lemma ref_resolve_of_chain (gitdir : list string) (st : fs) (ref : string) (n : nat) (d : string) :
  ref_chain gitdir st ref n d ->
  forall fuel, (n < fuel)%nat -> Repo.ref_resolve gitdir fuel st ref = Ok d.
Proof.
  induction 1 as [ref d Hr Hp | ref ref' n d Hr _ IH]; intros fuel Hf;
    (destruct fuel as [|fuel]; [lia|]); cbn [Repo.ref_resolve];
    rewrite Hr, bind_ok; cbv beta iota zeta.
  - rewrite slice_drop_last, Hp. reflexivity.
  - replace ("ref: " ++ ref' ++ s1 NL) with (("ref: " ++ ref') ++ s1 NL)
      by (rewrite sapp_assoc; reflexivity).
    rewrite slice_drop_last, prefix_app, slice_from_ref.
    apply IH. lia.
Qed.

End RefFacts.

(** ** Facts about writing to the store *)

Module StoreFacts.

Lemma node_at_insert_ne (st : fs) (p q : list string) (n : node) :
  p <> q -> node_at (<[p := n]> st) q = node_at st q.
Proof.
  intros H. unfold node_at. destruct q as [|x q]; [reflexivity|].
  apply lookup_insert_ne. exact H.
Qed.

Lemma node_at_insert_eq (st : fs) (p : list string) (n : node) :
  p <> [] -> node_at (<[p := n]> st) p = Some n.
Proof.
  intros H. unfold node_at. destruct p as [|x p]; [congruence|].
  simplify_map_eq. reflexivity.
Qed.

Lemma node_at_nil_dir (st : fs) (p : list string) : node_at st p <> Some Dir -> p <> [].
Proof. intros H ->. apply H. reflexivity. Qed.

Lemma removelast_neq (p : list string) : p <> [] -> removelast p <> p.
Proof.
  induction p as [|a p IH]; intros H; [congruence|].
  destruct p as [|b p]; [discriminate|].
  intros E. change (a :: removelast (b :: p) = a :: b :: p) in E.
  injection E as E. apply IH; [discriminate | exact E].
Qed.

Lemma mkdir_spec (p : list string) (st : fs) (r : result unit) (st' : fs) :
  mkdir p st = (r, st') ->
  match r with
  | Ok _ => st' = <[p := Dir]> st
  | Err _ => st' = st
  end.
Proof.
  unfold mkdir, mbind, mget. cbv beta iota.
  destruct (exists_ st p); [unfold mthrow; intros [= <- <-]; reflexivity|].
  destruct (node_at st (removelast p)) as [[|c]|];
    unfold mput, mthrow; intros [= <- <-]; reflexivity.
Qed.

Lemma mkdir_ok (p : list string) (st : fs) :
  exists_ st p = false -> node_at st (removelast p) = Some Dir ->
  mkdir p st = (Ok tt, <[p := Dir]> st).
Proof.
  intros E N. unfold mkdir, mbind, mget. cbv beta iota. rewrite E, N. reflexivity.
Qed.

(** [os.makedirs] of a missing directory either raises without changing
    anything or makes the directory, changing no deeper path. *)
Lemma makedirs_rev_spec (rp : list string) :
  forall st r st',
  exists_ st (rev rp) = false -> makedirs_rev rp st = (r, st') ->
  match r with
  | Err _ => st' = st
  | Ok _ => node_at st' (rev rp) = Some Dir
            /\ forall q, (length (rev rp) < length q)%nat -> node_at st' q = node_at st q
  end.
Proof.
  induction rp as [|c rh IH]; intros st r st' Hx Hm; [discriminate|].
  change (rev (c :: rh)) with (rev rh ++ [c])%list in *.
  assert (Hne : (rev rh ++ [c])%list <> []) by (destruct (rev rh); discriminate).
  assert (Hlen : length (rev rh ++ [c])%list = S (length (rev rh)))
    by (rewrite length_app; simpl; lia).
  assert (Hok : forall st0, mkdir (rev rh ++ [c])%list st0 = (r, st') ->
            (forall q, (length (rev rh ++ [c])%list < length q)%nat -> node_at st0 q = node_at st q) ->
            st0 = st \/ (exists u, r = Ok u) ->
            match r with
            | Err _ => st' = st
            | Ok _ => node_at st' (rev rh ++ [c])%list = Some Dir
                      /\ forall q, (length (rev rh ++ [c])%list < length q)%nat ->
                                   node_at st' q = node_at st q
            end).
  { intros st0 Hk Hq Hcase. apply mkdir_spec in Hk. destruct r as [u|e].
    - subst st'. split; [apply node_at_insert_eq, Hne|].
      intros q Hl. rewrite node_at_insert_ne by (intros E; subst q; lia). apply Hq, Hl.
    - destruct Hcase as [-> | [u Hu]]; [exact Hk | discriminate]. }
  cbn [makedirs_rev] in Hm. unfold mbind, mget in Hm. cbv beta iota in Hm.
  change (rev (c :: rh)) with (rev rh ++ [c])%list in Hm.
  destruct (exists_ st (rev rh)) eqn:Eh.
  - unfold mret in Hm. apply (Hok st Hm); auto.
  - destruct (makedirs_rev rh st) as [r1 st1] eqn:R.
    specialize (IH st r1 st1 Eh R).
    destruct r1 as [u|e].
    + destruct IH as [Hd Hq].
      assert (Hq' : forall q, (length (rev rh ++ [c])%list < length q)%nat ->
                    node_at st1 q = node_at st q) by (intros q Hl; apply Hq; lia).
      assert (Hx1 : exists_ st1 (rev rh ++ [c])%list = false).
      { unfold exists_. rewrite Hq by lia. exact Hx. }
      assert (Hpar : node_at st1 (removelast (rev rh ++ [c])%list) = Some Dir)
        by (rewrite removelast_last; exact Hd).
      apply (Hok st1); [exact Hm | exact Hq' |].
      right. exists tt. rewrite (mkdir_ok _ _ Hx1 Hpar) in Hm. congruence.
    + subst st1. destruct e; try (injection Hm as <- <-; reflexivity).
      apply (Hok st Hm); auto.
Qed.

(** [repo_dir(repo, *parts, mkdir=True)] either raises without changing
    anything or returns a path that is then a directory. *)
Lemma repo_dir_mkdir_spec (gitdir parts : list string) (st : fs) (r : result (list string)) (st' : fs) :
  Repo.repo_dir_mkdir gitdir parts st = (r, st') ->
  match r with
  | Err _ => st' = st
  | Ok d => node_at st' d = Some Dir
  end.
Proof.
  unfold Repo.repo_dir_mkdir, mbind, mget. cbv beta iota zeta.
  set (p := Repo.repo_path gitdir parts).
  destruct (exists_ st p) eqn:E.
  - destruct (isdir st p) eqn:D; unfold mret, mthrow; intros [= <- <-]; [|reflexivity].
    unfold isdir in D. destruct (node_at st p) as [[|]|]; congruence.
  - destruct (makedirs p st) as [r1 st1] eqn:R. unfold makedirs in R.
    apply makedirs_rev_spec in R; [|rewrite rev_involutive; exact E].
    rewrite rev_involutive in R.
    destruct r1 as [u|e]; unfold mret; intros [= <- <-]; [apply R | exact R].
Qed.

Lemma repo_dir_mkdir_existing (gitdir parts : list string) (st : fs) (d : list string) :
  node_at st d = Some Dir ->
  Repo.repo_dir_mkdir gitdir parts st = (Ok d, st) \/ d <> Repo.repo_path gitdir parts.
Proof.
  intros H. destruct (decide (d = Repo.repo_path gitdir parts)) as [->|Hn]; [left|right; exact Hn].
  unfold Repo.repo_dir_mkdir, mbind, mget. cbv beta iota zeta.
  unfold exists_, isdir. rewrite H. reflexivity.
Qed.

Lemma write_bytes_spec (p : list string) (c : string) (st : fs) (r : result unit) (st' : fs) :
  write_bytes p c st = (r, st') ->
  match r with
  | Err _ => st' = st
  | Ok _ => st' = <[p := File c]> st
            /\ node_at st p <> Some Dir /\ node_at st (removelast p) = Some Dir
  end.
Proof.
  unfold write_bytes, mbind, mget. cbv beta iota.
  destruct (node_at st p) as [[|c0]|] eqn:N;
    [unfold mthrow; intros [= <- <-]; reflexivity| |];
    (destruct (node_at st (removelast p)) as [[|c1]|] eqn:N';
     unfold mput, mthrow; intros [= <- <-]; [|reflexivity|reflexivity]);
    (split; [reflexivity | split; [discriminate | reflexivity]]).
Qed.

(** Writing the same bytes to the same file again changes nothing. *)
Lemma write_bytes_again (p : list string) (c : string) (st : fs) :
  node_at st p <> Some Dir -> node_at st (removelast p) = Some Dir ->
  write_bytes p c (<[p := File c]> st) = (Ok tt, <[p := File c]> st).
Proof.
  intros Hp Hd. pose proof (node_at_nil_dir st p Hp) as Hne.
  unfold write_bytes, mbind, mget. cbv beta iota.
  rewrite node_at_insert_eq by exact Hne.
  rewrite node_at_insert_ne by (apply not_eq_sym, removelast_neq, Hne).
  rewrite Hd. unfold mput. rewrite insert_insert_eq. reflexivity.
Qed.

(** The returned path of a successful [repo_dir_mkdir] is the repository
    path of its parts. *)
Lemma repo_dir_mkdir_path (gitdir parts : list string) (st : fs) (d : list string) (st' : fs) :
  Repo.repo_dir_mkdir gitdir parts st = (Ok d, st') -> d = Repo.repo_path gitdir parts.
Proof.
  unfold Repo.repo_dir_mkdir, mbind, mget. cbv beta iota zeta.
  destruct (exists_ st (Repo.repo_path gitdir parts)); [destruct (isdir st (Repo.repo_path gitdir parts))|].
  - unfold mret. intros [= -> _]. reflexivity.
  - unfold mthrow. discriminate.
  - destruct (makedirs (Repo.repo_path gitdir parts) st) as [[u|e] st1];
      unfold mret; [intros [= -> _]; reflexivity | discriminate].
Qed.

(** Running the store effect of a persisting write on the state it
    leaves gives the same result and the same state. *)
Lemma write_step_again (gitdir parts : list string) (c : string) (st : fs) :
  write_step gitdir parts c (snd (write_step gitdir parts c st)) = write_step gitdir parts c st.
Proof.
  unfold write_step, Repo.repo_file_mkdir, mbind, mret. cbv beta iota.
  destruct (Repo.repo_dir_mkdir gitdir (removelast parts) st) as [r1 st1] eqn:R.
  pose proof (repo_dir_mkdir_spec _ _ _ _ _ R) as Hs.
  destruct r1 as [d|e]; cbv beta iota.
  - pose proof (repo_dir_mkdir_path _ _ _ _ _ R) as Hd. subst d.
    set (d := Repo.repo_path gitdir (removelast parts)) in *.
    assert (Hagain : forall st2, node_at st2 d = Some Dir ->
              Repo.repo_dir_mkdir gitdir (removelast parts) st2 = (Ok d, st2)).
    { intros st2 H2. destruct (repo_dir_mkdir_existing gitdir (removelast parts) st2 d H2)
        as [E|Hn]; [exact E | exfalso; apply Hn; reflexivity]. }
    destruct (write_bytes (Repo.repo_path gitdir parts) c st1) as [r2 st2] eqn:W.
    pose proof (write_bytes_spec _ _ _ _ _ W) as Hw.
    destruct r2 as [u|e]; cbn [snd].
    + destruct Hw as (-> & Hq & Hpar).
      assert (Hdq : Repo.repo_path gitdir parts <> d) by (intros E; rewrite E in Hq; contradiction).
      rewrite Hagain by (rewrite node_at_insert_ne by exact Hdq; exact Hs).
      cbv beta iota. rewrite write_bytes_again by assumption. destruct u. reflexivity.
    + subst st2. rewrite Hagain by exact Hs. cbv beta iota. exact W.
  - subst st1. cbn [snd]. rewrite R. reflexivity.
Qed.

Lemma object_write_true_eq (gitdir : list string) (compress sha1 : string -> string)
  (o : GitObject) (st : fs) :
  Repo.object_write gitdir compress sha1 o true st
  = match serialize o with
    | Ok data =>
        let h := sha1 (Repo.frame (fmt o) data) in
        match write_step gitdir (Repo.shard h) (compress (Repo.frame (fmt o) data)) st with
        | (Ok _, st1) => (Ok h, st1)
        | (Err e, st1) => (Err e, st1)
        end
    | Err e => (Err e, st)
    end.
Proof.
  unfold Repo.object_write, write_step, mbind, lift, mret. cbv beta iota zeta.
  destruct (serialize o); reflexivity.
Qed.

End StoreFacts.

(** ** Facts about [object_find] *)

Module FindFacts.

Lemma find_loop_step (gitdir : list string) (decompress : string -> option string)
  (fuel k : nat) (st : fs) (f : string) (follow : bool) (h : string) :
  Repo.find_loop gitdir decompress fuel (S k) st f follow h
  = (obj ← Repo.object_read gitdir decompress fuel st h;
     if String.eqb (fmt obj) f then Ok (Some h)
     else if negb (String.eqb (fmt obj) "tag") then Ok None
     else if negb follow then Ok (Some h)
     else if String.eqb (fmt obj) "tag" then
       h' ← Repo.field_ascii obj "object"; Repo.find_loop gitdir decompress fuel k st f follow h'
     else if String.eqb (fmt obj) "commit" && String.eqb f "tree" then
       h' ← Repo.field_ascii obj "tree"; Repo.find_loop gitdir decompress fuel k st f follow h'
     else Ok None).
Proof. reflexivity. Qed.

(** Following a tag to a commit, with a type other than [tag] and
    [commit] asked for, [object_find] returns [None]. *)
Lemma find_tag_commit (gitdir : list string) (decompress : string -> option string)
  (fuel : nat) (st : fs) (name t c f : string) (dt dc : Kvlm.odict) :
  (2 <= fuel)%nat ->
  String.eqb f EmptyString = false -> String.eqb "tag" f = false ->
  String.eqb "commit" f = false ->
  Repo.object_resolve gitdir fuel st name = Ok (Some [t]) ->
  Repo.object_read gitdir decompress fuel st t = Ok (GitTag dt) ->
  Repo.field_ascii (GitTag dt) "object" = Ok c ->
  Repo.object_read gitdir decompress fuel st c = Ok (GitCommit dc) ->
  Repo.object_find gitdir decompress fuel st name (Some f) true = Ok None.
Proof.
  intros Hfuel He Htag Hcom Hres Ht Hc Hcr.
  unfold Repo.object_find. rewrite Hres, StrFacts.bind_ok. cbv beta iota.
  rewrite He. destruct fuel as [|[|k]]; [lia|lia|].
  rewrite find_loop_step, Ht, StrFacts.bind_ok. cbv beta. cbn [fmt].
  rewrite Htag. change (negb (String.eqb "tag" "tag")) with false.
  change (String.eqb "tag" "tag") with true. cbv iota.
  rewrite Hc, StrFacts.bind_ok. cbv beta.
  rewrite find_loop_step, Hcr, StrFacts.bind_ok. cbv beta. cbn [fmt].
  rewrite Hcom. change (negb (String.eqb "commit" "tag")) with true. reflexivity.
Qed.

End FindFacts.

(** ** Truncated tree entries (C6) *)

Local Open Scope string_scope.
Local Open Scope Z_scope.

(** C6 (counterexample): the payload [b"100644 f\x00abc"] has only 3 of
    the 20 digest bytes after the NUL; [tree_parse] raises nothing and
    returns the entry, its digest rendered from the 3 bytes present. *)
Lemma tree_parse_truncated_no_error :
  tree_parse 5 tree_truncated = Ok [mkLeaf "100644" "f" "616263"].
Proof. vm_compute. reflexivity. Qed.

(** C6 (amended): [tree_parse] has no truncation check. When complete
    entries are followed by a final entry with fewer than 20 bytes after
    its NUL terminator, [tree_parse] returns every entry, the last one with
    its digest rendered from the bytes that remain, and raises nothing. *)
Theorem tree_parse_truncated_final (es : list (string * string * string)) (m p t : string) :
  Forall full_entry es -> entry_ok m p -> (String.length t < 20)%nat ->
  tree_parse (S (length es)) (entries_bytes es ++ entry_bytes m p t)
  = Ok (map leaf_of es ++ [mkLeaf m p (render_digest t)])%list.
Proof.
  intros HF Hmp Ht.
  exact (TreeFacts.tree_parse_loop_entries m p t es Hmp Ht HF EmptyString []).
Qed.

Lemma tree_parse_truncated_final_witness :
  tree_parse 1 (entries_bytes [] ++ entry_bytes "100644" "f" "abc")
  = Ok (map leaf_of [] ++ [mkLeaf "100644" "f" (render_digest "abc")])%list.
Proof.
  apply (tree_parse_truncated_final [] "100644" "f" "abc").
  - constructor.
  - split; [right; reflexivity | split; reflexivity].
  - cbv. lia.
Defined.

(** ** The declared length of a stored object (C7) *)

(** C7: let the object file at the shard path of [h] decompress to
    [f + b" " + ds + b"\x00" + payload], where [f] has no space and [ds] is
    a non-empty ASCII decimal numeral. If the value of [ds] differs from
    the number of payload bytes, [object_read] raises the length error;
    if it is equal and [f] is one of the four known type tags, the result
    of [object_read] is that of the tag's constructor on the payload. *)
Theorem object_read_declared_length (gitdir : list string)
  (decompress : string -> option string) (fuel : nat) (st : fs) (h : string)
  (p : list string) (data f ds payload : string) :
  Repo.repo_file gitdir st (Repo.shard h) = Ok (Some p) ->
  read_bytes st p = Ok data ->
  decompress data = Some (f ++ s1 SP ++ ds ++ s1 NUL ++ payload) ->
  find_char SP f = None -> decimal_digits ds = true -> ds <> EmptyString ->
  (decimal_value ds <> zlen payload ->
     Repo.object_read gitdir decompress fuel st h = Err BadLength)
  /\ (decimal_value ds = zlen payload ->
      forall r, construct fuel f payload = Some r ->
      Repo.object_read gitdir decompress fuel st h = r).
Proof.
  intros Hp Hd Hz HfS Hds Hne.
  destruct (EnvFacts.envelope_positions f ds payload HfS Hds)
    as (E1 & E2 & E3 & E4 & E5 & E6).
  unfold Repo.object_read. rewrite Hp, StrFacts.bind_ok. cbv beta iota.
  cbn [Repo.some_path]. rewrite StrFacts.bind_ok. cbv beta iota.
  rewrite Hd, StrFacts.bind_ok. cbv beta iota. rewrite Hz, StrFacts.bind_ok.
  cbv beta iota. unfold Repo.object_parse. cbv zeta.
  rewrite E1, E2, E3, E4, EnvFacts.decode_ascii_space_decimal by exact Hds.
  rewrite StrFacts.bind_ok. cbv beta iota.
  rewrite EnvFacts.py_int_space_decimal by assumption.
  rewrite StrFacts.bind_ok. cbv beta iota. rewrite E5, E6.
  split.
  - intros Hneq. apply Z.eqb_neq in Hneq. rewrite Hneq. reflexivity.
  - intros Heq r Hr. apply Z.eqb_eq in Heq. rewrite Heq. cbn [negb].
    rewrite Hr. reflexivity.
Qed.

Lemma object_read_declared_length_witness :
  Repo.object_read gitdir_w no_zlib 5 store_bad_length bad_id = Err BadLength
  /\ Repo.object_read gitdir_w no_zlib 5 store_chain tag_id
     = (d ← Kvlm.key_value_list_with_message_parse 5 tag_payload; Ok (GitTag d)).
Proof.
  split.
  - apply (proj1 (object_read_declared_length gitdir_w no_zlib 5 store_bad_length bad_id
      (Repo.repo_path gitdir_w (Repo.shard bad_id)) ("blob 7" ++ s1 NUL ++ "hello" ++ s1 NL)
      "blob" "7" ("hello" ++ s1 NL)
      ltac:(vm_compute; reflexivity) ltac:(vm_compute; reflexivity)
      ltac:(vm_compute; reflexivity) ltac:(vm_compute; reflexivity)
      ltac:(vm_compute; reflexivity) ltac:(discriminate))).
    vm_compute. discriminate.
  - apply (proj2 (object_read_declared_length gitdir_w no_zlib 5 store_chain tag_id
      (Repo.repo_path gitdir_w (Repo.shard tag_id)) (Repo.frame "tag" tag_payload)
      "tag" (Repo.str_nat (String.length tag_payload)) tag_payload
      ltac:(vm_compute; reflexivity) ltac:(vm_compute; reflexivity)
      ltac:(vm_compute; reflexivity) ltac:(vm_compute; reflexivity)
      ltac:(vm_compute; reflexivity) ltac:(vm_compute; discriminate))).
    + vm_compute. reflexivity.
    + vm_compute. reflexivity.
Defined.

(** ** Reference chains (C9) *)

(** C9: when reading [ref] and following [n] symbolic [ref: ] lines ends
    at a reference file holding [d] and a newline, [ref_resolve] with more
    than [n] levels of recursion available returns [d], the text without
    its newline; for [ref = "HEAD"], [object_resolve] on [HEAD] returns
    the single candidate [d]. *)
Theorem ref_resolve_chain (gitdir : list string) (st : fs) (ref : string) (n : nat)
  (d : string) (fuel : nat) :
  ref_chain gitdir st ref n d -> (n < fuel)%nat ->
  Repo.ref_resolve gitdir fuel st ref = Ok d
  /\ (ref = "HEAD" -> Repo.object_resolve gitdir fuel st "HEAD" = Ok (Some [d])).
Proof.
  intros Hc Hf.
  assert (Hr := RefFacts.ref_resolve_of_chain gitdir st ref n d Hc fuel Hf).
  split; [exact Hr|]. intros ->.
  unfold Repo.object_resolve.
  change (String.eqb (strip "HEAD") EmptyString) with false.
  change (String.eqb "HEAD" "HEAD") with true. cbv iota beta.
  rewrite Hr. reflexivity.
Qed.

Lemma ref_resolve_chain_witness :
  Repo.ref_resolve gitdir_w 2 store_refs "HEAD" = Ok commit_id
  /\ Repo.object_resolve gitdir_w 2 store_refs "HEAD" = Ok (Some [commit_id]).
Proof.
  assert (Hc : ref_chain gitdir_w store_refs "HEAD" 1 commit_id).
  { apply (chain_symbolic gitdir_w store_refs "HEAD" "refs/heads/main").
    - vm_compute. reflexivity.
    - apply chain_direct; vm_compute; reflexivity. }
  destruct (ref_resolve_chain gitdir_w store_refs "HEAD" 1 commit_id 2 Hc
              ltac:(lia)) as [H1 H2].
  split; [exact H1 | exact (H2 eq_refl)].
Defined.

(** ** Writing objects (C8, C10) *)

(** C8: a second persisting [object_write] of the same object, run on the
    store the first one left, returns the same result (the same object id
    when the first succeeded) and leaves the store as the first one left
    it. *)
Theorem object_write_idempotent (gitdir : list string) (compress sha1 : string -> string)
  (o : GitObject) (st : fs) :
  Repo.object_write gitdir compress sha1 o true
    (snd (Repo.object_write gitdir compress sha1 o true st))
  = Repo.object_write gitdir compress sha1 o true st.
Proof.
  rewrite !StoreFacts.object_write_true_eq.
  destruct (serialize o) as [data|e]; [|reflexivity]. cbv zeta.
  set (w := write_step gitdir _ _).
  assert (Hw : w (snd (w st)) = w st) by apply StoreFacts.write_step_again.
  destruct (w st) as [[u|e] st1] eqn:E; cbn [snd] in Hw |- *; rewrite Hw; reflexivity.
Qed.

(** C10: [object_write] with [actually_write] false leaves the store
    unchanged and returns the hash of the framed serialization; when a
    persisting write of the same object returns an id, the dry run
    returns the same id. *)
Theorem object_write_dry_run (gitdir : list string) (compress sha1 : string -> string)
  (o : GitObject) (st : fs) :
  Repo.object_write gitdir compress sha1 o false st
  = ((data ← serialize o; Ok (sha1 (Repo.frame (fmt o) data))), st)
  /\ (forall h st', Repo.object_write gitdir compress sha1 o true st = (Ok h, st') ->
       fst (Repo.object_write gitdir compress sha1 o false st) = Ok h).
Proof.
  assert (Hf : Repo.object_write gitdir compress sha1 o false st
               = ((data ← serialize o; Ok (sha1 (Repo.frame (fmt o) data))), st)).
  { unfold Repo.object_write, mbind, lift, mret. cbv beta iota zeta.
    destruct (serialize o); reflexivity. }
  split; [exact Hf|]. intros h st' Ht. rewrite Hf. cbn [fst].
  rewrite StoreFacts.object_write_true_eq in Ht.
  destruct (serialize o) as [data|e]; [|discriminate]. cbv zeta in Ht.
  destruct (write_step _ _ _ st) as [[u|e] st1]; [|discriminate].
  injection Ht as <- _. reflexivity.
Qed.

(** ** Following tags and commits (C2) *)

(** C2: let [name] resolve to a single tag whose [object] field names a
    commit whose [tree] field names a tree. Asked for a [tree] or for a
    [blob], [object_find] returns [None]: it follows the tag to the
    commit, and the check [obj.fmt != b"tag"] then returns before the
    commit-to-tree branch is reached. *)
Theorem object_find_tag_commit_tree (gitdir : list string)
  (decompress : string -> option string) (fuel : nat) (st : fs)
  (name t c tr : string) (dt dc : Kvlm.odict) (items : list GitTreeLeaf) :
  (2 <= fuel)%nat ->
  Repo.object_resolve gitdir fuel st name = Ok (Some [t]) ->
  Repo.object_read gitdir decompress fuel st t = Ok (GitTag dt) ->
  Repo.field_ascii (GitTag dt) "object" = Ok c ->
  Repo.object_read gitdir decompress fuel st c = Ok (GitCommit dc) ->
  Repo.field_ascii (GitCommit dc) "tree" = Ok tr ->
  Repo.object_read gitdir decompress fuel st tr = Ok (GitTree items) ->
  Repo.object_find gitdir decompress fuel st name (Some "tree") true = Ok None
  /\ Repo.object_find gitdir decompress fuel st name (Some "blob") true = Ok None.
Proof.
  intros Hfuel Hres Ht Hc Hcr _ _.
  split; eapply FindFacts.find_tag_commit; eauto.
Qed.

Lemma object_find_tag_commit_tree_witness :
  Repo.object_find gitdir_w no_zlib 5 store_chain tag_id (Some "tree") true = Ok None
  /\ Repo.object_find gitdir_w no_zlib 5 store_chain tag_id (Some "blob") true = Ok None.
Proof.
  apply (object_find_tag_commit_tree gitdir_w no_zlib 5 store_chain tag_id tag_id
    commit_id tree_id
    [("object", Kvlm.KBytes commit_id); ("type", Kvlm.KBytes "commit");
     ("tag", Kvlm.KBytes "v1"); (EmptyString, Kvlm.KBytes ("m" ++ s1 NL))]
    [("tree", Kvlm.KBytes tree_id); (EmptyString, Kvlm.KBytes ("m" ++ s1 NL))] []);
    first [lia | vm_compute; reflexivity].
Defined.

(** * Further properties of the code *)

Module HexFacts.

Import StrFacts TreeFacts.
Local Open Scope string_scope.
Local Open Scope Z_scope.

Lemma lhex_digit (c : ascii) :
  lhex c = true ->
  exists v, HexString.ascii_to_digit c = Some v /\ digit 16 c = Some (Z.of_N v)
            /\ c <> "_"%char /\ c <> "-"%char /\ c <> "+"%char /\ is_space c = false.
Proof.
  destruct c as [[] [] [] [] [] [] [] []]; try discriminate; intros _;
    eexists; (split; [reflexivity|]); (split; [reflexivity|]);
    repeat split; discriminate.
Qed.

Fixpoint of_pos_lhex (p : positive) (rest : string) (H : all_lhex rest = true) {struct p} :
  all_lhex (HexString.Raw.of_pos p rest) = true.
Proof.
  do 4 try destruct p as [p|p|]; cbn [HexString.Raw.of_pos];
    first [ apply of_pos_lhex; cbn [all_lhex]; rewrite H; reflexivity
          | cbn [all_lhex]; rewrite H; reflexivity ].
Qed.

Fixpoint of_pos_head (p : positive) (rest : string) {struct p} :
  exists c r, HexString.Raw.of_pos p rest = String c r /\ c <> "0"%char.
Proof.
  do 4 try destruct p as [p|p|]; cbn [HexString.Raw.of_pos];
    first [ apply of_pos_head
          | do 2 eexists; split; [reflexivity | discriminate] ].
Qed.

Lemma digits_rest_lhex (s : string) (acc : N) :
  all_lhex s = true ->
  digits_rest 16 s (Z.of_N acc) = Some (Z.of_N (HexString.Raw.to_N s acc)).
Proof.
  revert acc. induction s as [|c s IH]; intros acc H; [reflexivity|].
  cbn [all_lhex] in H. apply andb_prop in H as [Hc Hs].
  destruct (lhex_digit c Hc) as (v & Ha & Hd & Hu & _).
  cbn [digits_rest HexString.Raw.to_N]. destruct (ascii_dec c "_"); [contradiction|].
  rewrite Hd, Ha. replace (Z.of_N acc * 16 + Z.of_N v) with (Z.of_N (v + 16 * acc)%N) by lia.
  apply IH, Hs.
Qed.

Lemma rstrip_lhex (s : string) : all_lhex s = true -> rstrip s = s.
Proof.
  induction s as [|c s IH]; intros H; [reflexivity|].
  cbn [all_lhex] in H. apply andb_prop in H as [Hc Hs].
  destruct (lhex_digit c Hc) as (v & _ & _ & _ & _ & _ & Hsp).
  cbn [rstrip]. rewrite IH by exact Hs.
  destruct s as [|c' s']; [rewrite Hsp|]; reflexivity.
Qed.

(** [int(hex(n)[2:], 16)] is [n]. *)
Lemma py_int_render (d : string) :
  py_int 16 (render_digest d) = Ok (Z.of_N (from_bytes_big d)).
Proof.
  unfold render_digest, py_hex. destruct (from_bytes_big d) as [|p] eqn:E; [reflexivity|].
  change (HexString.of_N (N.pos p)) with ("0x" ++ HexString.Raw.of_pos p EmptyString).
  rewrite (slice_from_at "0x").
  assert (Hl := of_pos_lhex p EmptyString eq_refl).
  assert (Hv : HexString.Raw.to_N (HexString.Raw.of_pos p EmptyString) 0 = N.pos p)
    by (rewrite HexString.Raw.to_N_of_pos; reflexivity).
  destruct (of_pos_head p EmptyString) as (c & r & Er & Hc0).
  rewrite Er in Hl, Hv |- *.
  pose proof Hl as Hl'. cbn [all_lhex] in Hl'. apply andb_prop in Hl' as [Hc Hr].
  destruct (lhex_digit c Hc) as (v & _ & _ & Hu & Hm & Hp & Hsp).
  unfold py_int, strip. cbn [lstrip]. rewrite Hsp. rewrite rstrip_lhex by exact Hl.
  cbv zeta.
  destruct (Ascii.eqb_spec c "-") as [|_]; [contradiction|].
  destruct (Ascii.eqb_spec c "+") as [|_]; [contradiction|].
  assert (Hd : digits 16 false (String c r) = Some (Z.of_N (N.pos p))).
  { unfold digits. destruct (ascii_dec c "_"); [contradiction|].
    rewrite <- Hv. apply (digits_rest_lhex (String c r) 0), Hl. }
  destruct r as [|x r'].
  - rewrite Hd. f_equal.
  - destruct (Ascii.eqb_spec c "0") as [|_]; [contradiction|]. cbn [andb].
    rewrite Hd. f_equal.
Qed.


Lemma string_snoc (s : string) : s = EmptyString \/ exists s' c, s = s' ++ s1 c.
Proof.
  induction s as [|c s IH]; [left; reflexivity|right].
  destruct IH as [-> | (s' & d & ->)].
  - exists EmptyString, c. reflexivity.
  - exists (String c s'), d. reflexivity.
Qed.

Lemma from_bytes_acc_snoc (s : string) (c : ascii) (acc : N) :
  from_bytes_acc (s ++ s1 c) acc = (from_bytes_acc s acc * 256 + N.of_nat (nat_of_ascii c))%N.
Proof. revert acc. induction s as [|x s IH]; intros acc; [reflexivity|]. apply IH. Qed.

(** [int.to_bytes(len(b), "big")] undoes [int.from_bytes(b, "big")], and the
    value fits in [len(b)] bytes. *)
Lemma be_bytes_from_bytes (n : nat) :
  forall s, String.length s = n ->
  be_bytes n (Z.of_N (from_bytes_big s)) = s /\ (Z.of_N (from_bytes_big s) < 256 ^ Z.of_nat n).
Proof.
  induction n as [|n IH]; intros s Hl.
  - destruct s; [split; reflexivity | discriminate].
  - destruct (string_snoc s) as [-> | (s' & c & ->)]; [discriminate|].
    rewrite length_app in Hl. cbn [String.length s1] in Hl.
    destruct (IH s' ltac:(lia)) as [Hb Hlt].
    unfold from_bytes_big in *. rewrite from_bytes_acc_snoc.
    assert (Hc : (nat_of_ascii c < 256)%nat) by apply nat_ascii_bounded.
    set (F := from_bytes_acc s' 0) in *.
    replace (Z.of_N (F * 256 + N.of_nat (nat_of_ascii c)))
      with (Z.of_N F * 256 + Z.of_nat (nat_of_ascii c)) by lia.
    split.
    + cbn [be_bytes].
      rewrite Z.div_add_l, (Z.div_small (Z.of_nat _)), Z.add_0_r by lia.
      rewrite Z.add_comm, Z.mod_add, Z.mod_small by lia.
      rewrite Nat2Z.id, ascii_nat_embedding.
      rewrite Hb. reflexivity.
    + rewrite Nat2Z.inj_succ, Z.pow_succ_r by lia. lia.
Qed.

Lemma to_bytes20_from_bytes (d : string) :
  String.length d = 20%nat -> to_bytes20 (Z.of_N (from_bytes_big d)) = Ok d.
Proof.
  intros Hl. destruct (be_bytes_from_bytes 20 d Hl) as [Hb Hlt].
  unfold to_bytes20. rewrite Hb.
  rewrite (proj2 (Z.ltb_ge _ _)) by lia.
  rewrite (proj2 (Z.leb_gt _ _)) by (change (2 ^ 160) with (256 ^ Z.of_nat 20); exact Hlt).
  reflexivity.
Qed.


(** The loop reads complete entries one by one and stops at the end. *)
Lemma tree_parse_loop_full (es : list (string * string * string)) :
  Forall full_entry es ->
  forall (fuel : nat) (pre : string) (acc : list GitTreeLeaf), (length es <= fuel)%nat ->
  tree_parse_loop fuel (pre ++ entries_bytes es) (zlen pre) acc
  = Ok (acc ++ map leaf_of es)%list.
Proof.
  induction 1 as [|[[m0 p0] d0] es [Hmp0 Hd0] HF IH]; intros fuel pre acc Hf.
  - rewrite tree_parse_loop_eq. change (entries_bytes []) with EmptyString.
    rewrite zlen_app. change (zlen EmptyString) with 0.
    rewrite (proj2 (Z.ltb_ge _ _)) by lia. rewrite app_nil_r. reflexivity.
  - destruct fuel as [|fuel]; [cbn [length] in Hf; lia|].
    cbn [entries_bytes entry_of map].
    rewrite tree_parse_loop_eq.
    pose proof (zlen_nonneg m0). pose proof (zlen_nonneg p0).
    pose proof (zlen_nonneg (entries_bytes es)). pose proof (zlen_nonneg d0).
    rewrite (proj2 (Z.ltb_lt _ _)) by (rewrite !zlen_app, zlen_entry; lia).
    assert (E : entry_bytes m0 p0 d0 ++ entries_bytes es
                = entry_bytes m0 p0 (d0 ++ entries_bytes es))
      by (unfold entry_bytes; rewrite <- !sapp_assoc; reflexivity).
    rewrite E, tree_parse_one_at by exact Hmp0. rewrite bind_ok. cbv beta iota.
    replace (stake 20 (d0 ++ entries_bytes es)) with d0
      by (rewrite <- Hd0; symmetry; apply stake_app).
    rewrite <- E, sapp_assoc.
    replace (zlen pre + zlen m0 + 1 + zlen p0 + 21) with (zlen (pre ++ entry_bytes m0 p0 d0))
      by (assert (zlen d0 = 20) by (unfold zlen; rewrite Hd0; reflexivity);
          rewrite zlen_app, zlen_entry; lia).
    rewrite IH by (cbn [length] in Hf; lia). rewrite <- app_assoc. reflexivity.
Qed.

Lemma tree_serialize_full (es : list (string * string * string)) :
  Forall full_entry es -> tree_serialize (map leaf_of es) = Ok (entries_bytes es).
Proof.
  induction 1 as [|[[m0 p0] d0] es [Hmp0 Hd0] HF IH]; [reflexivity|].
  cbn [map leaf_of tree_serialize mode path sha].
  rewrite py_int_render, bind_ok. cbv beta.
  rewrite to_bytes20_from_bytes by exact Hd0. rewrite bind_ok. cbv beta.
  rewrite IH, bind_ok. cbn [entries_bytes entry_of]. unfold entry_bytes.
  rewrite <- !sapp_assoc. reflexivity.
Qed.

End HexFacts.

Module NumFacts.
Local Open Scope Z_scope.

Lemma string_of_uint_decimal (u : Decimal.uint) (acc : nat) :
  decimal_digits (NilEmpty.string_of_uint u) = true
  /\ decimal_value_acc (NilEmpty.string_of_uint u) (Z.of_nat acc)
     = Z.of_nat (Nat.of_uint_acc u acc).
Proof.
  revert acc. induction u as [|u IH|u IH|u IH|u IH|u IH|u IH|u IH|u IH|u IH|u IH];
    intros acc; [split; reflexivity|..];
    (destruct (IH (Nat.of_uint_acc (Decimal.D0 Decimal.Nil) 0)) as [Hd _]);
    (split; [exact Hd|]);
    cbn [NilEmpty.string_of_uint decimal_value_acc Nat.of_uint_acc];
    rewrite Nat.tail_mul_spec;
    match goal with |- decimal_value_acc _ (_ + (Z.of_nat (nat_of_ascii ?c) - 48))
                       = Z.of_nat (Nat.of_uint_acc _ ?b) =>
      let v := eval vm_compute in (nat_of_ascii c) in
      change (nat_of_ascii c) with v;
      replace (Z.of_nat acc * 10 + (Z.of_nat v - 48)) with (Z.of_nat b) by lia end;
    apply IH.
Qed.

Lemma str_nat_decimal (n : nat) :
  decimal_digits (Repo.str_nat n) = true
  /\ decimal_value (Repo.str_nat n) = Z.of_nat n
  /\ Repo.str_nat n <> EmptyString.
Proof.
  destruct (string_of_uint_decimal (Nat.to_uint n) 0) as [Hd Hv].
  unfold decimal_value, Repo.str_nat. split; [exact Hd|split].
  - change 0 with (Z.of_nat 0). rewrite Hv. change (Nat.of_uint_acc (Nat.to_uint n) 0) with (Nat.of_uint (Nat.to_uint n)).
    rewrite DecimalNat.Unsigned.of_to. reflexivity.
  - destruct n as [|k]; [discriminate|].
    destruct (Nat.to_uint (S k)) eqn:E; try discriminate.
    pose proof (DecimalNat.Unsigned.of_to (S k)) as H. rewrite E in H. discriminate.
Qed.


Import StrFacts.

(** The envelope [frame f data] is read back as [data] of type [f]. *)
Lemma object_parse_frame (fuel : nat) (f data : string) :
  find_char SP f = None ->
  Repo.object_parse fuel (Repo.frame f data)
  = match construct fuel f data with
    | Some r => r
    | None => _ ← decode_ascii f; Err UnknownType
    end.
Proof.
  intros HfS.
  destruct (str_nat_decimal (String.length data)) as (Hds & Hv & Hne).
  destruct (EnvFacts.envelope_positions f (Repo.str_nat (String.length data)) data HfS Hds)
    as (E1 & E2 & E3 & E4 & E5 & E6).
  unfold Repo.object_parse, Repo.frame. cbv zeta.
  rewrite E1, E2, E3, E4, EnvFacts.decode_ascii_space_decimal by exact Hds.
  rewrite bind_ok. cbv beta iota.
  rewrite EnvFacts.py_int_space_decimal by assumption.
  rewrite bind_ok. cbv beta iota. rewrite E5, E6, Hv.
  rewrite Z.eqb_refl. reflexivity.
Qed.

End NumFacts.

Module WriteFacts.

Import StrFacts StoreFacts.

(** A successful store step leaves the file at [repo_path parts], in a
    directory. *)
Lemma write_step_ok (gitdir parts : list string) (c : string) (st : fs) (u : unit) (st' : fs) :
  write_step gitdir parts c st = (Ok u, st') ->
  exists st1, st' = <[Repo.repo_path gitdir parts := File c]> st1
    /\ node_at st1 (Repo.repo_path gitdir (removelast parts)) = Some Dir
    /\ node_at st1 (Repo.repo_path gitdir parts) <> Some Dir.
Proof.
  unfold write_step, Repo.repo_file_mkdir, mbind, mret. cbv beta iota.
  destruct (Repo.repo_dir_mkdir gitdir (removelast parts) st) as [r1 st1] eqn:R.
  pose proof (repo_dir_mkdir_spec _ _ _ _ _ R) as Hs.
  destruct r1 as [d|e]; [|discriminate].
  pose proof (repo_dir_mkdir_path _ _ _ _ _ R) as Hd. subst d.
  intros W. pose proof (write_bytes_spec _ _ _ _ _ W) as Hw.
  destruct Hw as (-> & Hq & _). exists st1. auto.
Qed.

Lemma read_after_write_step (gitdir : list string) (h c : string) (st : fs) (u : unit) (st' : fs) :
  write_step gitdir (Repo.shard h) c st = (Ok u, st') ->
  Repo.repo_file gitdir st' (Repo.shard h) = Ok (Some (Repo.repo_path gitdir (Repo.shard h)))
  /\ read_bytes st' (Repo.repo_path gitdir (Repo.shard h)) = Ok c.
Proof.
  intros W. destruct (write_step_ok _ _ _ _ _ _ W) as (st1 & -> & Hd & Hp).
  set (p := Repo.repo_path gitdir (Repo.shard h)) in *.
  set (q := Repo.repo_path gitdir (removelast (Repo.shard h))) in *.
  assert (Hpq : p <> q) by (intros E; rewrite E in Hp; contradiction).
  assert (Hne := node_at_nil_dir _ _ Hp).
  split.
  - unfold Repo.repo_file, Repo.repo_dir. fold q. unfold exists_, isdir.
    rewrite node_at_insert_ne by exact Hpq. rewrite Hd. reflexivity.
  - unfold read_bytes. rewrite node_at_insert_eq by exact Hne. reflexivity.
Qed.

End WriteFacts.

Module KvlmFacts.
Import StrFacts TreeFacts.
Local Open Scope string_scope.
Local Open Scope Z_scope.

Lemma replace_aux_fuel (old new : string) :
  old <> EmptyString ->
  forall f g s, (String.length s <= f)%nat -> (String.length s <= g)%nat ->
  replace_aux f old new s = replace_aux g old new s.
Proof.
  intros Ho. induction f as [|f IH]; intros g s Hf Hg.
  - destruct s; [destruct g; reflexivity | cbn in Hf; lia].
  - destruct s as [|c s]; [destruct g; reflexivity|].
    destruct g as [|g]; [cbn in Hg; lia|]. cbn [replace_aux].
    cbn [String.length] in Hf, Hg.
    destruct (String.prefix old (String c s)).
    + f_equal. apply IH.
      all: destruct old as [|o old]; [congruence|]; cbn [String.length sdrop];
        (assert (Hd : forall n t, (String.length (sdrop n t) <= String.length t)%nat)
           by (induction n as [|n IHn]; intros [|x t]; cbn; auto; specialize (IHn t); lia));
        specialize (Hd (String.length old) s); lia.
    + f_equal. apply IH; lia.
Qed.

Lemma fold_value_cons (c : ascii) (s : string) :
  fold_value (String c s)
  = if ascii_dec c NL then String NL (String SP (fold_value s)) else String c (fold_value s).
Proof.
  unfold fold_value, replace. cbn [String.length replace_aux].
  unfold s1 at 1. cbn [String.prefix].
  destruct (ascii_dec NL c) as [<-|E]; destruct (ascii_dec NL NL) as [_|E'];
    try congruence; cbn [sdrop String.length].
  - destruct s; reflexivity.
  - destruct (ascii_dec c NL); [congruence|]. reflexivity.
Qed.

Lemma replace_aux_S (f : nat) (old new : string) (c : ascii) (s : string) :
  replace_aux (S f) old new (String c s)
  = if String.prefix old (String c s)
    then new ++ replace_aux f old new (sdrop (String.length old) (String c s))
    else String c (replace_aux f old new s).
Proof. reflexivity. Qed.

Lemma unfold_value_fold (v : string) :
  replace (String NL (s1 SP)) (s1 NL) (fold_value v) = v.
Proof.
  induction v as [|c v IH]; [reflexivity|].
  rewrite fold_value_cons. unfold replace in *.
  destruct (ascii_dec c NL) as [->|E].
  - change (String NL (String SP (fold_value v))) with (String NL (s1 SP) ++ fold_value v).
    rewrite length_app. change (String.length (String NL (s1 SP))) with 2%nat.
    change (2 + String.length (fold_value v))%nat with (S (S (String.length (fold_value v)))).
    change (replace_aux (S (S ?n)) ?o ?w (String NL (s1 SP) ++ ?x))
      with (replace_aux (S (S n)) o w (String NL (String SP x))).
    rewrite replace_aux_S.
    change (String NL (String SP (fold_value v))) with (String NL (s1 SP) ++ fold_value v).
    rewrite RefFacts.prefix_app, sdrop_app.
    rewrite (replace_aux_fuel (String NL (s1 SP)) (s1 NL) ltac:(discriminate) _
               (String.length (fold_value v))) by lia.
    rewrite IH. reflexivity.
  - cbn [String.length]. rewrite replace_aux_S.
    cbn [String.prefix]. destruct (ascii_dec NL c) as [E'|_]; [congruence|].
    f_equal. exact IH.
Qed.

Lemma fold_value_length (v : string) : (String.length v <= String.length (fold_value v))%nat.
Proof.
  induction v as [|c v IH]; [reflexivity|]. rewrite fold_value_cons.
  destruct (ascii_dec c NL); cbn [String.length]; lia.
Qed.


Lemma get_app (pre s : string) :
  String.get (String.length pre) (pre ++ s) = String.get 0 s.
Proof. induction pre as [|c pre IH]; [reflexivity|]. exact IH. Qed.

Lemma index_at (pre rest : string) (c : ascii) :
  index (pre ++ String c rest) (zlen pre) = Ok c.
Proof.
  unfold index. pose proof (zlen_nonneg pre).
  rewrite (proj2 (Z.ltb_ge (zlen pre) 0)) by lia.
  rewrite (proj2 (Z.ltb_ge (zlen pre) 0)) by lia.
  rewrite (proj2 (Z.leb_gt _ _)) by (rewrite zlen_app; unfold zlen; cbn [String.length]; lia).
  replace (Z.to_nat (zlen pre)) with (String.length pre) by (unfold zlen; lia).
  rewrite get_app. reflexivity.
Qed.

Lemma find_char_app_hit (c : ascii) (a b : string) :
  exists j, find_char c (a ++ String c b) = Some j.
Proof.
  induction a as [|d a IH].
  - exists 0%nat. apply find_char_head.
  - destruct IH as [j Hj]. cbn [find_char]. change (String d a ++ String c b) with (String d (a ++ String c b)).
    cbn [find_char]. destruct (ascii_dec c d); [exists 0%nat; reflexivity|].
    rewrite Hj. exists (S j). reflexivity.
Qed.

Lemma find_char_snoc_none (c x : ascii) (a : string) :
  find_char c a = None -> c <> x -> find_char c (a ++ s1 x) = None.
Proof.
  intros Ha Hx. rewrite find_char_app_none by exact Ha.
  cbn [find_char s1]. destruct (ascii_dec c x); [contradiction|]. reflexivity.
Qed.

Lemma value_end_eq (f : nat) (raw : string) (e : Z) :
  Kvlm.value_end (S f) raw e
  = (c ← index raw (find raw NL (e + 1) + 1);
     if ascii_dec c SP then Kvlm.value_end f raw (find raw NL (e + 1))
     else Ok (find raw NL (e + 1))).
Proof. reflexivity. Qed.

(** The end of a folded value is the first newline not followed by a space. *)
Lemma value_end_fold (v : string) :
  forall (A0 A1 rest : string) (c : ascii) (f : nat),
  find_char NL A1 = None -> c <> SP -> (String.length v < f)%nat -> (1 <= String.length A0)%nat ->
  Kvlm.value_end f (A0 ++ A1 ++ fold_value v ++ s1 NL ++ String c rest) (zlen A0 - 1)
  = Ok (zlen A0 + zlen A1 + zlen (fold_value v)).
Proof.
  induction v as [|x v IH]; intros A0 A1 rest c f HA1 Hc Hf HA0.
  - destruct f as [|f]; [lia|]. rewrite value_end_eq.
    replace (zlen A0 - 1 + 1) with (zlen A0) by lia.
    change (fold_value EmptyString) with EmptyString.
    change (A1 ++ EmptyString ++ s1 NL ++ String c rest) with (A1 ++ String NL (String c rest)).
    rewrite find_at, find_char_app_none, find_char_head by exact HA1.
    replace (A0 ++ A1 ++ String NL (String c rest)) with ((A0 ++ A1 ++ s1 NL) ++ String c rest)
      by (rewrite <- !sapp_assoc; reflexivity).
    replace (zlen A0 + Z.of_nat (String.length A1 + 0) + 1) with (zlen (A0 ++ A1 ++ s1 NL))
      by (rewrite !zlen_app; unfold zlen; cbn; lia).
    rewrite index_at, bind_ok. cbv beta.
    destruct (ascii_dec c SP); [contradiction|].
    f_equal. unfold zlen. cbn. lia.
  - rewrite fold_value_cons. destruct (ascii_dec x NL) as [->|Ex].
    + destruct f as [|f]; [cbn in Hf; lia|]. rewrite value_end_eq.
      replace (zlen A0 - 1 + 1) with (zlen A0) by lia.
      change (A1 ++ String NL (String SP (fold_value v)) ++ s1 NL ++ String c rest)
        with (A1 ++ String NL (String SP (fold_value v ++ s1 NL ++ String c rest))).
      rewrite find_at, find_char_app_none, find_char_head by exact HA1.
      set (T := fold_value v ++ s1 NL ++ String c rest).
      replace (A0 ++ A1 ++ String NL (String SP T)) with ((A0 ++ A1 ++ s1 NL) ++ String SP T)
        by (rewrite <- !sapp_assoc; reflexivity).
      replace (zlen A0 + Z.of_nat (String.length A1 + 0) + 1) with (zlen (A0 ++ A1 ++ s1 NL))
        by (rewrite !zlen_app; unfold zlen; cbn; lia).
      rewrite index_at, bind_ok. cbv beta.
      destruct (ascii_dec SP SP) as [_|]; [|congruence].
      replace (zlen A0 + Z.of_nat (String.length A1 + 0)) with (zlen (A0 ++ A1 ++ s1 NL) - 1)
        by (rewrite !zlen_app; unfold zlen; cbn; lia).
      change (String SP T) with (s1 SP ++ T). unfold T.
      rewrite IH; [| reflexivity | exact Hc | cbn in Hf; lia | rewrite !length_app; cbn; lia].
      f_equal. rewrite !zlen_app. unfold zlen. cbn. lia.
    + replace (A0 ++ A1 ++ String x (fold_value v) ++ s1 NL ++ String c rest)
        with (A0 ++ (A1 ++ s1 x) ++ fold_value v ++ s1 NL ++ String c rest)
        by (rewrite <- !sapp_assoc; reflexivity).
      rewrite IH; [| apply find_char_snoc_none; [exact HA1 | intros E; apply Ex; symmetry; exact E]
                   | exact Hc | cbn in Hf; lia | exact HA0].
      f_equal. rewrite !zlen_app. unfold zlen. cbn. lia.
Qed.


Lemma parse_aux_eq (f : nat) (raw : string) (start : Z) (dct : Kvlm.odict) :
  Kvlm.parse_aux (S f) raw start dct
  = (let spc := find raw SP start in
     let nl := find raw NL start in
     if (spc =? -1) || (nl <? spc) then
       if nl =? start
       then Ok (Kvlm.od_set EmptyString (Kvlm.KBytes (slice_from raw (start + 1))) dct)
       else Err AssertionError
     else
       end_ ← Kvlm.value_end f raw start;
       dct' ← Kvlm.kvlm_add (slice raw start spc)
                (replace (String NL (s1 SP)) (s1 NL) (slice raw (spc + 1) end_)) dct;
       Kvlm.parse_aux f raw (end_ + 1) dct').
Proof. reflexivity. Qed.

(** One well-formed field [k SP fold(v) NL] is read as the pair [(k, v)]. *)
Lemma parse_aux_field (pre k v rest : string) (c : ascii) (f : nat) (dct : Kvlm.odict) :
  key_ok k -> c <> SP -> (String.length v < f)%nat ->
  Kvlm.parse_aux (S f) (pre ++ field_bytes k v ++ String c rest) (zlen pre) dct
  = (dct' ← Kvlm.kvlm_add k v dct;
     Kvlm.parse_aux f (pre ++ field_bytes k v ++ String c rest) (zlen (pre ++ field_bytes k v)) dct').
Proof.
  intros (Hk & HkS & HkN) Hc Hf.
  set (raw := pre ++ field_bytes k v ++ String c rest).
  assert (Eraw : raw = pre ++ k ++ String SP (fold_value v ++ String NL (String c rest)))
    by (unfold raw, field_bytes; rewrite <- !sapp_assoc; reflexivity).
  assert (Hspc : find raw SP (zlen pre) = zlen pre + zlen k).
  { rewrite Eraw, find_at, find_char_app_none by exact HkS.
    rewrite find_char_head. unfold zlen. lia. }
  assert (Hnl : exists j, find raw NL (zlen pre) = zlen pre + zlen k + 1 + j /\ 0 <= j).
  { rewrite Eraw, find_at, find_char_app_none by exact HkN.
    cbn [find_char]. destruct (ascii_dec NL SP) as [E|_]; [discriminate|].
    destruct (find_char_app_hit NL (fold_value v) (String c rest)) as [j Hj].
    rewrite Hj. exists (Z.of_nat j). unfold zlen. lia. }
  destruct Hnl as (j & Hnl & Hj).
  destruct k as [|k0 kr]; [congruence|].
  assert (HkrN : find_char NL kr = None).
  { cbn [find_char] in HkN. destruct (ascii_dec NL k0); [discriminate|].
    destruct (find_char NL kr); [discriminate | reflexivity]. }
  assert (Hend : Kvlm.value_end f raw (zlen pre)
                 = Ok (zlen pre + zlen (String k0 kr) + 1 + zlen (fold_value v))).
  { assert (E : raw = (pre ++ s1 k0) ++ (kr ++ s1 SP) ++ fold_value v ++ s1 NL ++ String c rest)
      by (unfold raw, field_bytes; rewrite <- !sapp_assoc; reflexivity).
    rewrite E.
    replace (zlen pre) with (zlen (pre ++ s1 k0) - 1) at 1 by (rewrite zlen_app; unfold zlen; cbn; lia).
    rewrite value_end_fold; [| apply find_char_snoc_none; [exact HkrN | discriminate]
                             | exact Hc | exact Hf | rewrite length_app; cbn; lia].
    f_equal. rewrite !zlen_app. unfold zlen. cbn. lia. }
  assert (Hkey : slice raw (zlen pre) (zlen pre + zlen (String k0 kr)) = String k0 kr).
  { unfold raw, field_bytes. change (zlen (String k0 kr)) with (Z.of_nat (String.length (String k0 kr))).
    rewrite slice_at, <- sapp_assoc. apply stake_app. }
  assert (Hval : slice raw (zlen pre + zlen (String k0 kr) + 1)
                   (zlen pre + zlen (String k0 kr) + 1 + zlen (fold_value v)) = fold_value v).
  { assert (E : raw = (pre ++ String k0 kr ++ s1 SP) ++ fold_value v ++ s1 NL ++ String c rest)
      by (unfold raw, field_bytes; rewrite <- !sapp_assoc; reflexivity).
    rewrite E. replace (zlen pre + zlen (String k0 kr) + 1) with (zlen (pre ++ String k0 kr ++ s1 SP))
      by (rewrite !zlen_app; unfold zlen; cbn; lia).
    change (zlen (fold_value v)) with (Z.of_nat (String.length (fold_value v))).
    rewrite slice_at. apply stake_app. }
  rewrite parse_aux_eq. cbv zeta. fold raw. rewrite Hspc, Hnl.
  pose proof (zlen_nonneg pre). pose proof (zlen_nonneg (String k0 kr)).
  rewrite (proj2 (Z.eqb_neq _ _)) by lia. rewrite (proj2 (Z.ltb_ge _ _)) by lia. cbn [orb].
  rewrite Hend, bind_ok. cbv beta. rewrite Hkey, Hval, unfold_value_fold.
  replace (zlen pre + zlen (String k0 kr) + 1 + zlen (fold_value v) + 1)
    with (zlen (pre ++ field_bytes (String k0 kr) v))
    by (unfold field_bytes; rewrite !zlen_app; change (zlen (s1 SP)) with 1;
        change (zlen (s1 NL)) with 1; lia).
  reflexivity.
Qed.


(** The blank line: the rest is the message, under the empty key. *)
Lemma parse_aux_message (pre msg : string) (f : nat) (dct : Kvlm.odict) :
  Kvlm.parse_aux (S f) (pre ++ s1 NL ++ msg) (zlen pre) dct
  = Ok (Kvlm.od_set EmptyString (Kvlm.KBytes msg) dct).
Proof.
  rewrite parse_aux_eq. cbv zeta.
  change (s1 NL ++ msg) with (String NL msg).
  rewrite !find_at. rewrite find_char_head.
  cbn [find_char]. destruct (ascii_dec SP NL) as [E|_]; [discriminate|].
  rewrite Z.add_0_r, Z.eqb_refl.
  assert (Hor : ((match match find_char SP msg with Some k => Some (S k) | None => None end with
                  | Some k => zlen pre + Z.of_nat k | None => -1 end =? -1)
                 || (zlen pre <? match match find_char SP msg with Some k => Some (S k) | None => None end with
                  | Some k => zlen pre + Z.of_nat k | None => -1 end)) = true).
  { pose proof (zlen_nonneg pre). destruct (find_char SP msg) as [k|].
    - apply orb_true_intro. right. apply Z.ltb_lt. lia.
    - reflexivity. }
  rewrite Hor.
  replace (zlen pre + 1) with (zlen (pre ++ s1 NL)) by (rewrite zlen_app; reflexivity).
  change (String NL msg) with (s1 NL ++ msg). rewrite sapp_assoc, slice_from_at. reflexivity.
Qed.

Lemma od_set_absent (k : string) (v : Kvlm.kval) (d : Kvlm.odict) :
  Kvlm.od_lookup k d = None -> Kvlm.od_set k v d = (d ++ [(k, v)])%list.
Proof.
  induction d as [|[k' v'] d IH]; [reflexivity|]. cbn.
  destruct (String.eqb k k'); [discriminate|]. intros H. rewrite IH by exact H. reflexivity.
Qed.

Lemma od_lookup_snoc (k k' : string) (v : Kvlm.kval) (d : Kvlm.odict) :
  k <> k' -> Kvlm.od_lookup k (d ++ [(k', v)])%list = Kvlm.od_lookup k d.
Proof.
  intros Hne. induction d as [|[k0 v0] d IH]; cbn.
  - destruct (String.eqb_spec k k'); [contradiction | reflexivity].
  - destruct (String.eqb k k0); [reflexivity | exact IH].
Qed.

Lemma fields_next (fs : list (string * string)) (msg : string) :
  Forall (fun kv => key_ok (fst kv)) fs ->
  exists c rest, fields_bytes fs ++ s1 NL ++ msg = String c rest /\ c <> SP.
Proof.
  intros HF. destruct HF as [|[k v] fs' (Hk & HkS & _) _].
  - exists NL, msg. split; [reflexivity | discriminate].
  - cbn [fst] in Hk, HkS. destruct k as [|k0 kr]; [congruence|]. exists k0.
    eexists. split; [reflexivity|].
    cbn [find_char] in HkS. destruct (ascii_dec SP k0) as [E|E]; [discriminate|].
    intros E'. apply E. symmetry. exact E'.
Qed.

Lemma fields_bytes_length (k v : string) (fs : list (string * string)) :
  key_ok k ->
  (String.length v + 3 <= String.length (field_bytes k v))%nat.
Proof.
  intros (Hk & _ & _). unfold field_bytes. rewrite !length_app.
  pose proof (fold_value_length v). destruct k; [congruence|]. cbn. lia.
Qed.

Lemma parse_aux_fields (fs : list (string * string)) (msg : string) :
  Forall (fun kv => key_ok (fst kv)) fs -> NoDup (map fst fs) ->
  forall (pre : string) (dct : Kvlm.odict) (fuel : nat),
  (String.length (fields_bytes fs ++ s1 NL ++ msg) < fuel)%nat ->
  Forall (fun kv => Kvlm.od_lookup (fst kv) dct = None) fs ->
  Kvlm.od_lookup EmptyString dct = None ->
  Kvlm.parse_aux fuel (pre ++ fields_bytes fs ++ s1 NL ++ msg) (zlen pre) dct
  = Ok (dct ++ as_dict fs ++ [(EmptyString, Kvlm.KBytes msg)])%list.
Proof.
  induction fs as [|[k v] fs IH]; intros HF HD pre dct fuel Hfuel Hfresh Hempty.
  - destruct fuel as [|fuel]; [lia|]. cbn [fields_bytes]. change (EmptyString ++ ?x) with x.
    rewrite parse_aux_message, od_set_absent by exact Hempty. reflexivity.
  - inversion HF as [|? ? Hk HF']; subst. inversion HD as [|? ? Hnin HD']; subst.
    inversion Hfresh as [|? ? Hk0 Hfresh']; subst. cbn [fst] in Hk, Hk0, Hnin.
    cbn [fields_bytes] in Hfuel |- *.
    pose proof (fields_bytes_length k v fs Hk) as Hlen.
    rewrite !length_app in Hfuel.
    destruct fuel as [|fuel]; [lia|].
    destruct (fields_next fs msg HF') as (c & rest & Erest & Hc).
    rewrite <- sapp_assoc, Erest.
    rewrite parse_aux_field by (auto; lia).
    unfold Kvlm.kvlm_add. rewrite Hk0, od_set_absent by exact Hk0. rewrite bind_ok.
    rewrite <- Erest, sapp_assoc.
    rewrite IH; [| exact HF' | exact HD' | | |].
    + cbn [as_dict map]. rewrite <- app_assoc. reflexivity.
    + rewrite !length_app in *. lia.
    + apply Forall_forall. intros [k2 v2] Hin. cbn [fst]. rewrite od_lookup_snoc.
      * rewrite Forall_forall in Hfresh'. apply (Hfresh' (k2, v2) Hin).
      * intros ->. apply Hnin. apply list_elem_of_In in Hin. apply (in_map fst _ (k, v2)) in Hin.
        first [exact Hin | apply list_elem_of_In; exact Hin].
    + rewrite od_lookup_snoc; [exact Hempty|]. destruct Hk as [Hk _]. congruence.
Qed.

End KvlmFacts.

Module RefCreateFacts.
Import StrFacts StoreFacts.

Lemma universal_newlines_no_cr (s : string) :
  find_char CR s = None -> universal_newlines s = s.
Proof.
  induction s as [|a s IH]; [reflexivity|]. cbn [find_char].
  destruct (ascii_dec CR a) as [E|E]; [discriminate|].
  destruct (find_char CR s) eqn:F; [discriminate|]. intros _.
  cbn [universal_newlines]. rewrite IH by reflexivity.
  destruct (Nat.eqb_spec (nat_of_ascii a) 13) as [H|H]; [|reflexivity].
  exfalso. apply E. unfold CR, char. rewrite <- H. apply ascii_nat_embedding.
Qed.

Lemma repo_path_nil (gitdir : list string) : Repo.repo_path gitdir [] = gitdir.
Proof. reflexivity. Qed.

(** A successful [ref_create] found the git directory and wrote the
    reference file. *)
Lemma ref_create_ok (gitdir : list string) (ref_name sha : string) (st : fs) (u : unit) (st' : fs) :
  Porcelain.ref_create gitdir ref_name sha st = (Ok u, st') ->
  node_at st gitdir = Some Dir
  /\ st' = <[Repo.repo_path gitdir ["refs/" ++ ref_name] := File (sha ++ s1 NL)]> st
  /\ node_at st (Repo.repo_path gitdir ["refs/" ++ ref_name]) <> Some Dir.
Proof.
  unfold Porcelain.ref_create, mbind, mget, lift. cbv beta iota.
  unfold Repo.repo_file. cbn [removelast]. unfold Repo.repo_dir. rewrite repo_path_nil.
  unfold exists_, isdir.
  destruct (node_at st gitdir) as [[|c]|] eqn:G; cbn [Repo.some_path]; try discriminate.
  intros W. apply write_bytes_spec in W. destruct W as (-> & Hp & _). auto.
Qed.

Lemma ref_read_created (gitdir : list string) (ref_name sha : string) (st : fs) (u : unit) (st' : fs) :
  Porcelain.ref_create gitdir ref_name sha st = (Ok u, st') ->
  find_char CR sha = None ->
  Repo.ref_read gitdir st' ("refs/" ++ ref_name) = Ok (sha ++ s1 NL).
Proof.
  intros W Hcr. destruct (ref_create_ok _ _ _ _ _ _ W) as (Hg & -> & Hp).
  set (p := Repo.repo_path gitdir ["refs/" ++ ref_name]) in *.
  assert (Hpg : p <> gitdir) by (intros E; rewrite E in Hp; contradiction).
  assert (Hne := node_at_nil_dir _ _ Hp).
  unfold Repo.ref_read, Repo.repo_file. cbn [removelast]. unfold Repo.repo_dir.
  rewrite repo_path_nil. unfold exists_, isdir.
  rewrite node_at_insert_ne by exact Hpg. rewrite Hg, !bind_ok. fold p. cbn [Repo.some_path].
  rewrite bind_ok. unfold read_text, read_bytes. rewrite node_at_insert_eq by exact Hne.
  rewrite bind_ok. f_equal. apply universal_newlines_no_cr.
  apply KvlmFacts.find_char_snoc_none; [exact Hcr | discriminate].
Qed.

Lemma ref_resolve_created (gitdir : list string) (ref_name sha : string) (st : fs) (u : unit) (st' : fs)
  (k : nat) :
  Porcelain.ref_create gitdir ref_name sha st = (Ok u, st') ->
  find_char CR sha = None -> String.prefix "ref: " sha = false ->
  Repo.ref_resolve gitdir (S k) st' ("refs/" ++ ref_name) = Ok sha.
Proof.
  intros W Hcr Hp. cbn [Repo.ref_resolve]. rewrite (ref_read_created _ _ _ _ _ _ W Hcr), bind_ok.
  cbv zeta. rewrite RefFacts.slice_drop_last, Hp. reflexivity.
Qed.

End RefCreateFacts.

Module PathFacts.
Import StrFacts.

Lemma find_char_cons_none (c a : ascii) (s : string) :
  find_char c (String a s) = None -> c <> a /\ find_char c s = None.
Proof.
  cbn [find_char]. destruct (ascii_dec c a); [discriminate|].
  destruct (find_char c s); [discriminate|]. auto.
Qed.

Lemma split_slash_plain (s : string) : find_char "/" s = None -> split_slash s = [s].
Proof.
  induction s as [|a s IH]; [reflexivity|]. intros H.
  destruct (find_char_cons_none _ _ _ H) as [Ha Hs].
  cbn [split_slash]. rewrite IH by exact Hs.
  destruct (ascii_dec a "/"); [congruence | reflexivity].
Qed.

Lemma split_slash_cons (s : string) : exists w ws, split_slash s = w :: ws.
Proof.
  induction s as [|a s (w & ws & IH)]; [exists EmptyString, []; reflexivity|].
  cbn [split_slash]. rewrite IH. destruct (ascii_dec a "/"); eauto.
Qed.

Lemma split_slash_app (w s : string) :
  find_char "/" w = None -> split_slash (w ++ String "/" s) = w :: split_slash s.
Proof.
  induction w as [|a w IH]; intros H.
  - change (split_slash (String "/" s) = EmptyString :: split_slash s). cbn [split_slash].
    destruct (split_slash_cons s) as (x & xs & ->). reflexivity.
  - destruct (find_char_cons_none _ _ _ H) as [Ha Hw].
    change (String a w ++ String "/" s) with (String a (w ++ String "/" s)).
    cbn [split_slash]. rewrite IH by exact Hw.
    destruct (ascii_dec a "/"); [congruence | reflexivity].
Qed.

Lemma root_match (base : list string) (a : ascii) (s : string) :
  a <> "/"%char ->
  match String a s with String "/"%char _ => [] | _ => base end = base.
Proof.
  intros H. destruct a as [[] [] [] [] [] [] [] []]; try reflexivity; congruence.
Qed.

Lemma join1_component (base : list string) (c : string) :
  path_component c -> join1 base c = (base ++ [c])%list.
Proof.
  intros (Hs & He & Hd & Hdd). unfold join1. cbv zeta.
  rewrite split_slash_plain by exact Hs.
  destruct c as [|a s]; [congruence|].
  rewrite (root_match _ a s) by (exact (not_eq_sym (proj1 (find_char_cons_none _ _ _ Hs)))).
  cbn [fold_left].
  rewrite (proj2 (String.eqb_neq _ _) He), (proj2 (String.eqb_neq _ _) Hd),
    (proj2 (String.eqb_neq _ _) Hdd).
  reflexivity.
Qed.

Lemma lhex_no_slash (c : string) : all_lhex c = true -> find_char "/" c = None.
Proof.
  induction c as [|a c IH]; [reflexivity|]. cbn [all_lhex find_char].
  intros H. apply andb_prop in H as [Ha Hc].
  destruct (ascii_dec "/" a) as [<-|_]; [discriminate|]. rewrite IH by exact Hc. reflexivity.
Qed.

Lemma join1_lhex (base : list string) (c : string) :
  all_lhex c = true -> join1 base c = (base ++ (if String.eqb c EmptyString then [] else [c]))%list.
Proof.
  intros H. destruct (String.eqb_spec c EmptyString) as [->|He].
  - rewrite app_nil_r. reflexivity.
  - apply join1_component. split; [apply lhex_no_slash, H|]. split; [exact He|].
    split; intros ->; discriminate.
Qed.

Lemma all_lhex_sdrop (n : nat) (s : string) : all_lhex s = true -> all_lhex (sdrop n s) = true.
Proof.
  revert s; induction n as [|n IH]; intros [|a s] H; try exact H.
  cbn [sdrop]. apply IH. cbn [all_lhex] in H. apply andb_prop in H as [_ H]. exact H.
Qed.

Lemma all_lhex_stake (n : nat) (s : string) : all_lhex s = true -> all_lhex (stake n s) = true.
Proof.
  revert s; induction n as [|n IH]; intros [|a s] H; try reflexivity.
  cbn [stake all_lhex] in *. apply andb_prop in H as [Ha H]. rewrite Ha. apply IH, H.
Qed.

Lemma all_lhex_slice (s : string) (i j : Z) : all_lhex s = true -> all_lhex (slice s i j) = true.
Proof. intros H. unfold slice. apply all_lhex_stake, all_lhex_sdrop, H. Qed.

(** The object file of a hexadecimal id and its shard directory lie
    under [objects] in the git directory. *)
Lemma repo_path_shard (gitdir : list string) (h : string) :
  all_lhex h = true ->
  exists l1 l2,
    Repo.repo_path gitdir (removelast (Repo.shard h)) = (gitdir ++ "objects" :: l1)%list
    /\ Repo.repo_path gitdir (Repo.shard h) = (gitdir ++ "objects" :: l2)%list.
Proof.
  intros H. unfold Repo.repo_path, Repo.shard, join. cbn [removelast fold_left].
  rewrite (join1_component gitdir "objects")
    by (split; [reflexivity | split; [discriminate | split; discriminate]]).
  rewrite join1_lhex by (apply all_lhex_slice, H).
  rewrite join1_lhex by (apply all_lhex_slice, H).
  eexists _, _. rewrite <- !app_assoc. split; reflexivity.
Qed.

(** The file of the reference [refs/tags/<name>]. *)
Lemma repo_path_tag (gitdir : list string) (name : string) :
  path_component name ->
  Repo.repo_path gitdir ["refs/" ++ ("tags/" ++ name)] = (gitdir ++ ["refs"; "tags"; name])%list.
Proof.
  intros Hn. unfold Repo.repo_path, join. cbn [fold_left]. unfold join1. cbv zeta.
  change ("refs/" ++ ("tags/" ++ name)) with ("refs" ++ String "/" ("tags" ++ String "/" name)).
  rewrite split_slash_app by reflexivity. rewrite split_slash_app by reflexivity.
  rewrite split_slash_plain by (apply Hn).
  cbn [fold_left]. destruct Hn as (_ & He & Hd & Hdd).
  rewrite (proj2 (String.eqb_neq _ _) He), (proj2 (String.eqb_neq _ _) Hd),
    (proj2 (String.eqb_neq _ _) Hdd).
  simpl. rewrite <- !app_assoc. reflexivity.
Qed.

End PathFacts.

Module TagFacts.
Import StrFacts TreeFacts StoreFacts PathFacts RefCreateFacts.

Lemma find_char_lhex (c : ascii) (s : string) :
  lhex c = false -> all_lhex s = true -> find_char c s = None.
Proof.
  intros Hc. induction s as [|a s IH]; [reflexivity|]. cbn [all_lhex find_char].
  intros H. apply andb_prop in H as [Ha Hs].
  destruct (ascii_dec c a) as [<-|_]; [congruence|]. rewrite IH by exact Hs. reflexivity.
Qed.

Lemma lhex_not_ref (s : string) : all_lhex s = true -> String.prefix "ref: " s = false.
Proof.
  destruct s as [|a s]; [reflexivity|]. cbn [all_lhex]. intros H. apply andb_prop in H as [Ha _].
  cbn [String.prefix]. destruct (ascii_dec "r" a) as [<-|_]; [discriminate | reflexivity].
Qed.

Lemma find_0 (s : string) (c : ascii) :
  find s c 0 = match find_char c s with Some k => Z.of_nat k | None => -1 end.
Proof. exact (find_at EmptyString s c). Qed.

Lemma find_char_app_first (c : ascii) (a b : string) :
  find_char c a = None -> find_char c (a ++ String c b) = Some (String.length a).
Proof.
  intros H. rewrite find_char_app_none by exact H. rewrite find_char_head. f_equal. lia.
Qed.

(** A text whose first line is not empty and holds no space is refused. *)
Lemma parse_first_line_no_key (pre rest : string) (f : nat) :
  pre <> EmptyString -> find_char SP pre = None -> find_char NL pre = None ->
  Kvlm.key_value_list_with_message_parse (S f) (pre ++ String NL rest) = Err AssertionError.
Proof.
  intros Hne Hs Hn. unfold Kvlm.key_value_list_with_message_parse. cbn [Kvlm.parse_aux].
  rewrite !find_0. rewrite find_char_app_first by exact Hn.
  rewrite find_char_app_none by exact Hs. cbn [find_char].
  destruct (ascii_dec SP NL) as [E|_]; [discriminate|].
  assert (Hl : (0 < String.length pre)%nat) by (destruct pre; [congruence | cbn; lia]).
  destruct (find_char SP rest) as [j|].
  - rewrite (proj2 (Z.eqb_neq _ _)) by lia. rewrite (proj2 (Z.ltb_lt _ _)) by lia.
    cbn [orb]. rewrite (proj2 (Z.eqb_neq _ _)) by lia. reflexivity.
  - cbn [orb Z.eqb]. rewrite (proj2 (Z.eqb_neq _ _)) by lia. reflexivity.
Qed.

Lemma fold_value_plain (v : string) : find_char NL v = None -> fold_value v = v.
Proof.
  induction v as [|c v IH]; [reflexivity|]. intros H.
  destruct (find_char_cons_none _ _ _ H) as [Hc Hv].
  rewrite KvlmFacts.fold_value_cons. destruct (ascii_dec c NL); [congruence|]. rewrite IH by exact Hv. reflexivity.
Qed.

(** The serialized annotated tag starts with the line [object<sha>]. *)
Lemma tag_serialize (sha name : string) :
  exists rest, serialize (GitTag (Porcelain.tag_dict sha name))
               = Ok ("object" ++ fold_value sha ++ String NL rest).
Proof.
  unfold serialize, Kvlm.key_value_list_with_message_serialize, Porcelain.tag_dict.
  cbn [Kvlm.serialize_fields Kvlm.serialize_field String.eqb].
  rewrite !bind_ok. cbn [Kvlm.od_lookup String.eqb].
  eexists. f_equal. unfold fold_value, s1. cbn [append].
  rewrite <- !sapp_assoc. reflexivity.
Qed.

Lemma read_bytes_file (st : fs) (p : list string) (c : string) :
  read_bytes st p = Ok c -> node_at st p = Some (File c).
Proof.
  unfold read_bytes. destruct (node_at st p) as [[|c']|]; [discriminate| intros [= ->]; reflexivity|].
  destruct (node_at st (removelast p)) as [[|]|]; discriminate.
Qed.

End TagFacts.

Module ResolveFacts.
Import StrFacts TreeFacts StoreFacts PathFacts.

Lemma is_hex_char (c : ascii) :
  Repo.is_hex c = true -> is_space c = false /\ c <> "/"%char /\ c <> "."%char.
Proof.
  destruct c as [[] [] [] [] [] [] [] []]; try discriminate; intros _;
    (split; [reflexivity | split; discriminate]).
Qed.

Lemma rstrip_hex (s : string) : Repo.all_hex s = true -> rstrip s = s.
Proof.
  induction s as [|c s IH]; intros H; [reflexivity|].
  cbn [Repo.all_hex] in H. apply andb_prop in H as [Hc Hs].
  destruct (is_hex_char c Hc) as [Hsp _].
  cbn [rstrip]. rewrite IH by exact Hs.
  destruct s as [|c' s']; [rewrite Hsp|]; reflexivity.
Qed.

Lemma strip_hex (s : string) : Repo.all_hex s = true -> strip s = s.
Proof.
  intros H. unfold strip. destruct s as [|c s]; [reflexivity|].
  cbn [lstrip]. cbn [Repo.all_hex] in H. pose proof H as H'. apply andb_prop in H' as [Hc _].
  rewrite (proj1 (is_hex_char c Hc)). apply rstrip_hex, H.
Qed.

Lemma hex_component (c : string) : Repo.all_hex c = true -> c <> EmptyString -> path_component c.
Proof.
  intros H He. split; [|split; [exact He|]].
  - induction c as [|a c IH]; [reflexivity|]. cbn [Repo.all_hex] in H.
    apply andb_prop in H as [Ha Hc]. cbn [find_char].
    destruct (ascii_dec "/" a) as [<-|_]; [destruct (is_hex_char _ Ha) as (_ & E & _); congruence|].
    destruct c as [|b c]; [reflexivity|]. rewrite IH by (exact Hc || discriminate). reflexivity.
  - destruct c as [|a c]; [congruence|]. cbn [Repo.all_hex] in H.
    apply andb_prop in H as [Ha _]. destruct (is_hex_char _ Ha) as (_ & _ & Hd).
    split; intros E; injection E as -> _; congruence.
Qed.

Lemma all_hex_app (a b : string) : Repo.all_hex (a ++ b) = Repo.all_hex a && Repo.all_hex b.
Proof. induction a as [|c a IH]; [reflexivity|]. simpl. rewrite IH, andb_assoc. reflexivity. Qed.

(** A 40-character hexadecimal id splits as its shard [sha[0:2]] and the
    rest [sha[2:]], both path components. *)
Lemma shard_split (h : string) :
  String.length h = 40%nat -> Repo.all_hex h = true ->
  exists a b t, h = String a (String b EmptyString) ++ t
    /\ slice h 0 2 = String a (String b EmptyString) /\ slice_from h 2 = t
    /\ path_component (String a (String b EmptyString)) /\ path_component t.
Proof.
  intros Hl Hh. destruct h as [|a [|b t]]; try (cbn in Hl; lia).
  exists a, b, t.
  assert (E : String a (String b t) = String a (String b EmptyString) ++ t) by reflexivity.
  split; [exact E|]. rewrite E in Hh |- *. rewrite all_hex_app in Hh. apply andb_prop in Hh as [H1 H2].
  split; [exact (slice_at EmptyString _ 2)|]. split; [exact (slice_from_at (String a (String b EmptyString)) t)|].
  split; apply hex_component; try assumption; [discriminate|].
  intros ->. cbn in Hl. lia.
Qed.

Lemma listdir_spec (st : fs) (p : list string) (f : string) :
  In f (listdir st p) <-> exists n, st !! (p ++ [f])%list = Some n.
Proof.
  unfold listdir. rewrite <- list_elem_of_In, list_elem_of_omap. split.
  - intros ([k n] & Hin & Hg). apply elem_of_map_to_list in Hin.
    destruct (last k) as [x|] eqn:L; [|discriminate].
    destruct (decide (removelast k = p)) as [Hr|]; [|discriminate]. injection Hg as ->.
    apply last_Some in L as [l' ->]. rewrite removelast_last in Hr. subst l'. eauto.
  - intros [n Hn]. exists ((p ++ [f])%list, n). split; [apply elem_of_map_to_list, Hn|].
    rewrite last_snoc, removelast_last. destruct (decide (p = p)); [reflexivity | congruence].
Qed.

(** A 40-character hexadecimal name resolves to itself in lowercase,
    whatever the store holds. *)
Lemma object_resolve_full (gitdir : list string) (fuel : nat) (st : fs) (name : string) :
  String.length name = 40%nat -> Repo.all_hex name = true ->
  Repo.object_resolve gitdir fuel st name = Ok (Some [Repo.lower name]).
Proof.
  intros Hl Hh. unfold Repo.object_resolve. rewrite strip_hex by exact Hh.
  destruct (String.eqb_spec name EmptyString) as [->|_]; [discriminate|].
  destruct (String.eqb_spec name "HEAD") as [->|_]; [discriminate|].
  unfold Repo.hash_re_match, Repo.hex_4_40. rewrite Hh, Hl. reflexivity.
Qed.

End ResolveFacts.

Module HashFacts.
Import StrFacts StoreFacts.

(** Reading back what a persisting [object_write] stored. *)
Lemma read_written (gitdir : list string) (decompress : string -> option string)
  (compress sha1 : string -> string) (fuel : nat) (o : GitObject) (st : fs) (h : string) (st' : fs)
  (data : string) :
  (forall x, decompress (compress x) = Some x) ->
  Repo.object_write gitdir compress sha1 o true st = (Ok h, st') ->
  serialize o = Ok data ->
  h = sha1 (Repo.frame (fmt o) data)
  /\ Some (Repo.object_read gitdir decompress fuel st' h) = construct fuel (fmt o) data.
Proof.
  intros Hz Hw Hs.
  rewrite object_write_true_eq, Hs in Hw. cbv zeta in Hw.
  destruct (write_step _ _ _ st) as [[u|e] st1] eqn:W; [|discriminate].
  injection Hw as <- <-. split; [reflexivity|].
  destruct (WriteFacts.read_after_write_step _ _ _ _ _ _ W) as [Hf Hr].
  unfold Repo.object_read. rewrite Hf, bind_ok. cbn [Repo.some_path]. rewrite bind_ok.
  rewrite Hr, bind_ok, Hz, bind_ok.
  rewrite NumFacts.object_parse_frame by (destruct o; reflexivity).
  destruct o; reflexivity.
Qed.

Lemma lhex_char (c : ascii) :
  lhex c = true ->
  Repo.is_hex c = true
  /\ ((65 <=? nat_of_ascii c) && (nat_of_ascii c <=? 90))%nat = false.
Proof. destruct c as [[] [] [] [] [] [] [] []]; try discriminate; intros _; split; reflexivity. Qed.

Lemma lhex_lower (s : string) : all_lhex s = true -> Repo.lower s = s /\ Repo.all_hex s = true.
Proof.
  induction s as [|c s IH]; [split; reflexivity|]. cbn [all_lhex]. intros H.
  apply andb_prop in H as [Hc Hs]. destruct (IH Hs) as [E1 E2]. destruct (lhex_char c Hc) as [H1 H2].
  cbn [Repo.lower Repo.all_hex]. cbv zeta. rewrite H2, E1, H1, E2. split; reflexivity.
Qed.

(** [hash-object -w] then [cat-file] of the printed id, for any object
    the constructor of its type makes from the bytes and serializes back
    to them. *)
Lemma hash_then_cat (gitdir : list string) (decompress : string -> option string)
  (compress sha1 : string -> string) (fuel : nat) (f data : string) (o : GitObject)
  (st : fs) (h : string) (st' : fs) :
  (forall x, decompress (compress x) = Some x) ->
  (forall x, String.length (sha1 x) = 40%nat /\ all_lhex (sha1 x) = true) ->
  (1 <= fuel)%nat -> f <> EmptyString ->
  construct fuel f data = Some (Ok o) -> fmt o = f -> serialize o = Ok data ->
  Porcelain.object_hash gitdir compress sha1 fuel data f true st = (Ok h, st') ->
  Porcelain.cat_file gitdir decompress fuel st' h (Some f) = Ok data.
Proof.
  intros Hz Hsha Hfuel Hne Hc Hf Hs.
  unfold Porcelain.object_hash, mbind, lift. rewrite Hc. intros W.
  destruct (read_written gitdir decompress compress sha1 fuel o st h st' data Hz W Hs) as [Eh Hr].
  rewrite Hf, Hc in Hr. injection Hr as Hr.
  destruct (Hsha (Repo.frame (fmt o) data)) as [Hl Hx]. rewrite <- Eh in Hl, Hx.
  destruct (lhex_lower h Hx) as [Hlow Hall].
  unfold Porcelain.cat_file, Repo.object_find.
  rewrite (ResolveFacts.object_resolve_full gitdir fuel st' h Hl Hall), Hlow, bind_ok.
  rewrite (proj2 (String.eqb_neq _ _) Hne). destruct fuel as [|k]; [lia|].
  rewrite FindFacts.find_loop_step, Hr, bind_ok, Hf, String.eqb_refl, bind_ok.
  cbn [Porcelain.read_found]. rewrite Hr, bind_ok. exact Hs.
Qed.

Lemma decode_ascii_err (s : string) (e : exn) : decode_ascii s = Err e -> e = UnicodeDecodeError.
Proof.
  induction s as [|c s IH]; [discriminate|]. cbn [decode_ascii].
  destruct (128 <=? nat_of_ascii c)%nat; [congruence|].
  destruct (decode_ascii s) as [r|e']; [discriminate|]. intros [= <-]. apply IH. reflexivity.
Qed.

(** No iteration of the loop of [cmd_ls_tree] gets to print. *)
Lemma ls_tree_line_err (gitdir : list string) (decompress : string -> option string)
  (fuel : nat) (st : fs) (leaf : GitTreeLeaf) :
  Porcelain.ls_tree_line gitdir decompress fuel st leaf
  = Err (match decode_ascii (mode leaf) with Ok _ => TypeError | Err _ => UnicodeDecodeError end).
Proof.
  unfold Porcelain.ls_tree_line. destruct (decode_ascii (mode leaf)) as [m|e] eqn:D.
  - rewrite bind_ok. reflexivity.
  - rewrite (decode_ascii_err _ _ D). reflexivity.
Qed.

Lemma ls_tree_loop_out (gitdir : list string) (decompress : string -> option string)
  (fuel : nat) (st : fs) (items : list GitTreeLeaf) :
  Porcelain.ls_tree_loop gitdir decompress fuel st items
  = ([], match items with
         | [] => Ok tt
         | leaf :: _ =>
             Err (match decode_ascii (mode leaf) with Ok _ => TypeError | Err _ => UnicodeDecodeError end)
         end).
Proof.
  destruct items as [|leaf items]; [reflexivity|]. cbn [Porcelain.ls_tree_loop].
  rewrite ls_tree_line_err. reflexivity.
Qed.

End HashFacts.


Module CheckoutFacts.
Import StrFacts StoreFacts PathFacts.

Lemma node_at_objects (st : fs) (gitdir l : list string) :
  node_at st (gitdir ++ "objects" :: l)%list = st !! (gitdir ++ "objects" :: l)%list.
Proof. destruct gitdir; reflexivity. Qed.

(** [object_read] of a hexadecimal id only looks under [objects]. *)
Lemma object_read_stable (gitdir : list string) (decompress : string -> option string)
  (fuel : nat) (st st' : fs) (h : string) (o : GitObject) :
  all_lhex h = true ->
  (forall l, st' !! (gitdir ++ "objects" :: l)%list = st !! (gitdir ++ "objects" :: l)%list) ->
  Repo.object_read gitdir decompress fuel st h = Ok o ->
  Repo.object_read gitdir decompress fuel st' h = Ok o.
Proof.
  intros Hh Hs. destruct (repo_path_shard gitdir h Hh) as (l1 & l2 & E1 & E2).
  unfold Repo.object_read, Repo.repo_file, Repo.repo_dir.
  rewrite E1. unfold exists_, isdir. rewrite !node_at_objects, Hs.
  destruct (st !! (gitdir ++ "objects" :: l1)%list) as [[|c]|];
    [|cbn; discriminate|cbn; discriminate].
  rewrite !bind_ok. rewrite E2. cbn [Repo.some_path]. rewrite !bind_ok.
  unfold read_bytes. rewrite !node_at_objects, Hs.
  destruct (st !! (gitdir ++ "objects" :: l2)%list) as [[|c]|]; [| |].
  - rewrite bind_err. discriminate.
  - intros H; exact H.
  - destruct (node_at st (removelast (gitdir ++ "objects" :: l2)%list)) as [[|c]|];
      rewrite bind_err; discriminate.
Qed.

Lemma fmt_blob (o : GitObject) : fmt o = "blob" -> exists d, o = GitBlob d.
Proof. destruct o; cbn [fmt]; try discriminate. eauto. Qed.

Lemma app_single_neq (p : list string) (c : string) : p <> (p ++ [c])%list.
Proof. intros E. apply (f_equal (@List.length string)) in E. rewrite List.length_app in E. cbn in E. lia. Qed.

Lemma app_single_inj (p : list string) (c c' : string) : (p ++ [c])%list = (p ++ [c'])%list -> c = c'.
Proof. intros E. apply app_inv_head in E. congruence. Qed.

Section Items.
Variable gitdir : list string.
Variable decompress : string -> option string.
Variable fuel : nat.
Variable sub : GitObject -> list string -> M unit.

Definition leaf_ok (st : fs) (path : list string) (leaf : GitTreeLeaf) : Prop :=
  all_lhex (Tree.sha leaf) = true
  /\ (forall l, (path ++ [Tree.path leaf])%list <> (gitdir ++ "objects" :: l)%list)
  /\ exists o, Repo.object_read gitdir decompress fuel st (Tree.sha leaf) = Ok o
     /\ fmt o <> "tree"
     /\ (fmt o = "blob" -> node_at st (path ++ [Tree.path leaf])%list <> Some Dir).

Definition leaf_result (st : fs) (path : list string) (leaf : GitTreeLeaf) : option node :=
  match Repo.object_read gitdir decompress fuel st (Tree.sha leaf) with
  | Ok (GitBlob data) => Some (File data)
  | _ => node_at st (path ++ [Tree.path leaf])%list
  end.

Lemma checkout_items_files (path : list string) (items : list GitTreeLeaf) :
  forall st,
  node_at st path = Some Dir ->
  Forall (fun leaf => path_component (Tree.path leaf)) items ->
  NoDup (map Tree.path items) ->
  (forall leaf, In leaf items -> leaf_ok st path leaf) ->
  let '(r, st') := Checkout.checkout_items gitdir decompress sub fuel path items st in
  r = Ok tt
  /\ (forall leaf, In leaf items ->
        node_at st' (path ++ [Tree.path leaf])%list = leaf_result st path leaf)
  /\ (forall q, (forall leaf, In leaf items -> q <> (path ++ [Tree.path leaf])%list) ->
        node_at st' q = node_at st q).
Proof.
  induction items as [|leaf items IH]; intros st Hd Hc Hn Hok.
  - cbn. split; [reflexivity|]. split; [intros _ []|]. intros q _. reflexivity.
  - inversion Hc as [|? ? Hc1 Hcs]; subst.
    inversion Hn as [|? ? Hn1 Hns]; subst.
    destruct (Hok leaf (or_introl eq_refl)) as (Hx & Hobj & o & Ho & Ht & Hb).
    cbn [Checkout.checkout_items]. unfold mbind, mget, lift at 1.
    rewrite Ho. rewrite (join1_component _ _ Hc1).
    rewrite (proj2 (String.eqb_neq _ _) Ht).
    set (c := Tree.path leaf) in *.
    (* the state after this leaf *)
    assert (Step : exists st1,
               (if String.eqb (fmt o) "blob" then
                  do data <- lift (Checkout.blobdata o) in write_bytes (path ++ [c])%list data
                else mret tt) st = (Ok tt, st1)
               /\ node_at st1 (path ++ [c])%list = leaf_result st path leaf
               /\ (forall q, q <> (path ++ [c])%list -> node_at st1 q = node_at st q)
               /\ (forall l, st1 !! (gitdir ++ "objects" :: l)%list
                             = st !! (gitdir ++ "objects" :: l)%list)).
    { unfold leaf_result. rewrite Ho.
      destruct (String.eqb_spec (fmt o) "blob") as [Eb|Eb].
      - destruct (fmt_blob o Eb) as [data ->].
        exists (<[(path ++ [c])%list := File data]> st).
        assert (Hne : (path ++ [c])%list <> []) by (destruct path; discriminate).
        split; [|split; [|split]].
        + cbn [Checkout.blobdata lift mbind]. unfold write_bytes, mbind, mget.
          pose proof (Hb Eb) as Hnd.
          destruct (node_at st (path ++ [c])%list) as [[|c0]|] eqn:N; [congruence| |];
            rewrite removelast_last, Hd; reflexivity.
        + apply node_at_insert_eq, Hne.
        + intros q Hq. apply node_at_insert_ne. congruence.
        + intros l. apply lookup_insert_ne. apply Hobj.
      - exists st. split; [reflexivity|].
        split; [|split; [intros; reflexivity | intros; reflexivity]].
        destruct o; cbn [fmt] in *; try reflexivity. congruence. }
    destruct Step as (st1 & E1 & Hl & Hq & Hs).
    unfold mbind in E1. rewrite E1.
    assert (Hok1 : forall leaf', In leaf' items -> leaf_ok st1 path leaf').
    { intros leaf' Hin. destruct (Hok leaf' (or_intror Hin)) as (Hx' & Hobj' & o' & Ho' & Ht' & Hb').
      split; [exact Hx'|]. split; [exact Hobj'|]. exists o'.
      split; [apply (object_read_stable _ _ _ st), Ho'; [exact Hx' | exact Hs]|].
      split; [exact Ht'|]. intros Eb. rewrite Hq; [apply Hb', Eb|].
      intros E. apply app_single_inj in E. apply Hn1. subst c. rewrite <- E.
      apply list_elem_of_In, in_map, Hin. }
    assert (Hres : forall leaf', In leaf' items -> leaf_result st1 path leaf' = leaf_result st path leaf').
    { intros leaf' Hin. destruct (Hok leaf' (or_intror Hin)) as (Hx' & _ & o' & Ho' & _).
      unfold leaf_result. rewrite Ho', (object_read_stable _ _ _ st st1 _ o' Hx' Hs Ho').
      destruct o'; try reflexivity; apply Hq;
        (intros E; apply app_single_inj in E; apply Hn1; subst c; rewrite <- E;
         apply list_elem_of_In, in_map, Hin). }
    assert (Hd1 : node_at st1 path = Some Dir) by (rewrite Hq; [exact Hd | apply app_single_neq]).
    specialize (IH st1 Hd1 Hcs Hns Hok1).
    destruct (Checkout.checkout_items gitdir decompress sub fuel path items st1) as [r st'].
    destruct IH as (Hr & Hin & Hout).
    split; [exact Hr|]. split.
    + intros leaf' [<-|H'].
      * rewrite Hout; [exact Hl|]. intros leaf'' H'' E. apply app_single_inj in E.
        apply Hn1. subst c. rewrite E. apply list_elem_of_In, in_map, H''.
      * rewrite Hin by exact H'. apply Hres, H'.
    + intros q Hnq. rewrite Hout by (intros l' H'; apply Hnq; right; exact H').
      apply Hq. apply Hnq. left. reflexivity.
Qed.

End Items.

End CheckoutFacts.

Module RefsFacts.
Import StrFacts StoreFacts PathFacts.

Lemma split_slash_concat (q : list string) :
  q <> [] -> Forall (fun c => find_char "/" c = None) q ->
  split_slash (String.concat "/" q) = q.
Proof.
  induction q as [|a q IH]; intros Hne Hq; [congruence|].
  inversion Hq as [|? ? Ha Hq']; subst.
  destruct q as [|b q].
  - apply split_slash_plain, Ha.
  - change (String.concat "/" (a :: b :: q)) with (a ++ String "/" (String.concat "/" (b :: q))).
    rewrite split_slash_app by exact Ha. rewrite IH; [reflexivity | discriminate | exact Hq'].
Qed.

Lemma fold_components (q acc : list string) :
  Forall path_component q ->
  fold_left (fun acc c =>
      if String.eqb c EmptyString || String.eqb c "." then acc
      else if String.eqb c ".." then removelast acc
      else (acc ++ [c])%list) q acc = (acc ++ q)%list.
Proof.
  revert acc. induction q as [|c q IH]; intros acc Hq; [rewrite app_nil_r; reflexivity|].
  inversion Hq as [|? ? (_ & He & Hd & Hdd) Hq']; subst. cbn [fold_left].
  rewrite (proj2 (String.eqb_neq _ _) He), (proj2 (String.eqb_neq _ _) Hd),
    (proj2 (String.eqb_neq _ _) Hdd). cbn [orb].
  rewrite IH by exact Hq'. rewrite <- app_assoc. reflexivity.
Qed.

Lemma split_slash_root (s : string) : split_slash (String "/" s) = EmptyString :: split_slash s.
Proof. cbn [split_slash]. destruct (split_slash_cons s) as (w & ws & E). rewrite E. reflexivity. Qed.

Lemma components_no_slash (q : list string) :
  Forall path_component q -> Forall (fun c => find_char "/" c = None) q.
Proof. apply List.Forall_impl. intros c (H & _). exact H. Qed.

(** [os.path.join(base, p)] of an absolute path [p] is [p]. *)
Lemma join1_path_str (base q : list string) :
  Forall path_component q -> join1 base (Refs.path_str q) = q.
Proof.
  intros Hq. unfold join1, Refs.path_str.
  change ("/" ++ String.concat "/" q) with (String "/" (String.concat "/" q)).
  destruct q as [|a q]; [reflexivity|].
  rewrite split_slash_root, split_slash_concat by (discriminate || apply components_no_slash, Hq).
  change (fold_left ?F (EmptyString :: ?l) ?b) with (fold_left F l (F b EmptyString)).
  rewrite fold_components by exact Hq. reflexivity.
Qed.

(** [ref_resolve] of the absolute path of a file holding an id. *)
Lemma ref_resolve_file (gitdir q : list string) (st : fs) (sha : string) (k : nat) :
  node_at st gitdir = Some Dir -> Forall path_component q -> q <> [] ->
  st !! q = Some (File (sha ++ s1 NL)) -> find_char CR sha = None ->
  String.prefix "ref: " sha = false ->
  Repo.ref_resolve gitdir (S k) st (Refs.path_str q) = Ok sha.
Proof.
  intros G Hq Hne Hf Hcr Hp. cbn [Repo.ref_resolve].
  unfold Repo.ref_read, Repo.repo_file. cbn [removelast]. unfold Repo.repo_dir.
  rewrite RefCreateFacts.repo_path_nil. unfold exists_, isdir. rewrite G, !bind_ok.
  unfold Repo.repo_path, join. cbn [fold_left]. rewrite join1_path_str by exact Hq.
  cbn [Repo.some_path]. rewrite bind_ok. unfold read_text, read_bytes.
  replace (node_at st q) with (st !! q) by (destruct q; [congruence|reflexivity]).
  rewrite Hf, !bind_ok.
  rewrite RefCreateFacts.universal_newlines_no_cr
    by (apply KvlmFacts.find_char_snoc_none; [exact Hcr | discriminate]).
  cbv zeta. rewrite RefFacts.slice_drop_last, Hp. reflexivity.
Qed.

Lemma insert_sorted_perm (s : string) (l : list string) :
  Permutation (Refs.insert_sorted s l) (s :: l).
Proof.
  induction l as [|x l IH]; cbn [Refs.insert_sorted]; [reflexivity|].
  destruct (String.compare s x); try reflexivity.
  etransitivity; [apply perm_skip, IH|]. apply perm_swap.
Qed.

Lemma sorted_perm (l : list string) : Permutation (Refs.sorted l) l.
Proof.
  induction l as [|x l IH]; cbn [Refs.sorted fold_right]; [reflexivity|].
  etransitivity; [apply insert_sorted_perm|]. apply perm_skip, IH.
Qed.

Definition slt (a b : string) : Prop := String.ltb a b = true.

Lemma compare_gt_lt (a b : string) : String.compare a b = Gt -> slt b a.
Proof. unfold slt, String.ltb. intros C. rewrite String.compare_antisym, C. reflexivity. Qed.

Lemma compare_lt (a b : string) : String.compare a b = Lt -> slt a b.
Proof. unfold slt, String.ltb. intros ->. reflexivity. Qed.

Lemma insert_sorted_sorted (s : string) (l : list string) :
  Sorted slt l -> ~ In s l -> Sorted slt (Refs.insert_sorted s l).
Proof.
  induction l as [|x l IH]; intros Hs Hn; cbn [Refs.insert_sorted].
  - constructor; constructor.
  - destruct (String.compare s x) eqn:C.
    + apply String.compare_eq_iff in C. exfalso. apply Hn. left. symmetry. exact C.
    + constructor; [exact Hs|]. constructor. apply compare_lt, C.
    + apply Sorted_inv in Hs as [Hs Hh]. constructor.
      * apply IH; [exact Hs|]. intros H. apply Hn. right. exact H.
      * destruct l as [|y l]; cbn [Refs.insert_sorted].
        -- constructor. apply compare_gt_lt, C.
        -- destruct (String.compare s y); constructor;
             (apply compare_gt_lt, C) || (apply HdRel_inv in Hh; exact Hh).
Qed.

Lemma sorted_sorted (l : list string) : NoDup l -> Sorted slt (Refs.sorted l).
Proof.
  induction l as [|x l IH]; intros Hn; cbn [Refs.sorted fold_right]; [constructor|].
  apply NoDup_cons in Hn as [Hx Hn]. apply insert_sorted_sorted; [apply IH, Hn|].
  intros H. apply Hx. apply list_elem_of_In.
  apply (Permutation_in _ (sorted_perm l)), H.
Qed.

Lemma listdir_nodup (st : fs) (p : list string) : NoDup (listdir st p).
Proof.
  unfold listdir. pose proof (NoDup_fst_map_to_list st) as Hn.
  induction (map_to_list st) as [|[k v] l IH]; cbn [omap list_omap]; [constructor|].
  cbn [fmap list_fmap fst] in Hn. apply NoDup_cons in Hn as [Hk Hn].
  destruct (last k) as [n|] eqn:L; [|apply IH, Hn].
  destruct (decide (removelast k = p)) as [Hr|Hr]; [|apply IH, Hn].
  constructor; [|apply IH, Hn].
  intros H. apply list_elem_of_omap in H as ([k' v'] & Hin & Hg).
  destruct (last k') as [n'|] eqn:L'; [|discriminate].
  destruct (decide (removelast k' = p)) as [Hr'|]; [|discriminate].
  injection Hg as <-. apply Hk.
  apply last_Some in L as [k0 ->]. apply last_Some in L' as [k1 ->].
  rewrite removelast_last in Hr, Hr'. subst.
  apply (list_elem_of_fmap_2 fst _ (_, v')), Hin.
Qed.

Definition ref_file (st : fs) (q : list string) (sha : string) : Prop :=
  st !! q = Some (File (sha ++ s1 NL)) /\ find_char CR sha = None
  /\ String.prefix "ref: " sha = false.

Lemma ref_list_items_files (gitdir : list string) (sub : list string -> result (list (string * Refs.refval)))
  (k : nat) (st : fs) (p : list string) (names : list string) :
  node_at st gitdir = Some Dir -> Forall path_component p ->
  (forall f, In f names -> path_component f /\ exists sha, ref_file st (p ++ [f])%list sha) ->
  exists l, Refs.ref_list_items gitdir sub (S k) st p names = Ok l
    /\ map fst l = names
    /\ (forall f v, In (f, v) l -> exists sha, v = Refs.RSha sha /\ ref_file st (p ++ [f])%list sha).
Proof.
  intros G Hp. induction names as [|f names IH]; intros Hn.
  - exists []. split; [reflexivity|]. split; [reflexivity|]. intros _ _ [].
  - destruct (Hn f (or_introl eq_refl)) as (Hf & sha & Hs & Hcr & Hpre).
    destruct IH as (l & El & Ml & Vl); [intros f' H'; apply Hn; right; exact H'|].
    exists ((f, Refs.RSha sha) :: l).
    cbn [Refs.ref_list_items]. rewrite (join1_component _ _ Hf).
    assert (Hne : (p ++ [f])%list <> []) by (destruct p; discriminate).
    replace (isdir st (p ++ [f])%list) with false
      by (unfold isdir, node_at; destruct (p ++ [f])%list; [congruence|]; rewrite Hs; reflexivity).
    rewrite (ref_resolve_file gitdir (p ++ [f])%list st sha k G) by
      (exact Hne || exact Hs || exact Hcr || exact Hpre ||
       (apply Forall_app; split; [exact Hp | constructor; [exact Hf | constructor]])).
    rewrite !bind_ok, El, bind_ok.
    split; [reflexivity|]. split; [cbn; rewrite Ml; reflexivity|].
    intros f' v [E|H].
    + injection E as <- <-. exists sha. split; [reflexivity|]. split; [exact Hs|]. split; assumption.
    + apply Vl, H.
Qed.

Lemma show_ref_shas (l : list (string * Refs.refval)) :
  (forall f v, In (f, v) l -> exists sha, v = Refs.RSha sha) ->
  Refs.show_ref l false EmptyString = map fst l.
Proof.
  unfold Refs.show_ref. induction l as [|[f v] l IH]; intros H; [reflexivity|].
  destruct (H f v (or_introl eq_refl)) as [sha ->]. cbn [Refs.show_ref_dict map fst].
  f_equal. apply IH. intros f' v' H'. apply (H f' v'). right. exact H'.
Qed.

End RefsFacts.

(** X1: a payload made of complete tree entries (a 5- or 6-byte mode
    without a space, a path without NUL, 20 digest bytes) is parsed into
    one leaf per entry, and [tree_serialize] of those leaves gives the
    payload back, digests with leading zero bytes included. *)
Theorem tree_roundtrip_full (es : list (string * string * string)) (fuel : nat) :
  Forall full_entry es -> (length es <= fuel)%nat ->
  tree_parse fuel (entries_bytes es) = Ok (map leaf_of es)
  /\ (items ← tree_parse fuel (entries_bytes es); tree_serialize items) = Ok (entries_bytes es).
Proof.
  intros HF Hf.
  assert (Hp : tree_parse fuel (entries_bytes es) = Ok (map leaf_of es))
    by exact (HexFacts.tree_parse_loop_full es HF fuel EmptyString [] Hf).
  split; [exact Hp|]. rewrite Hp, StrFacts.bind_ok. apply HexFacts.tree_serialize_full, HF.
Qed.

Lemma tree_roundtrip_full_witness :
  let es := [("100644", "a.txt", String "000"%char (Fixtures.rep 19 "7"));
             ("40000", "sub", Fixtures.rep 20 "z")] in
  tree_parse 2 (entries_bytes es) = Ok (map leaf_of es)
  /\ (items ← tree_parse 2 (entries_bytes es); tree_serialize items) = Ok (entries_bytes es).
Proof.
  intros es. apply tree_roundtrip_full; [|cbn; lia].
  repeat constructor; cbn; (split; [|split]); first [left; reflexivity | right; reflexivity | reflexivity].
Defined.


(** X2: when [zlib.decompress] undoes [zlib.compress], reading back the
    id that a persisting [object_write] returned gives what the type's
    constructor makes of the serialized object. *)
Theorem object_write_read (gitdir : list string) (decompress : string -> option string)
  (compress sha1 : string -> string) (fuel : nat) (o : GitObject) (st : fs) (h : string) (st' : fs)
  (data : string) :
  (forall x, decompress (compress x) = Some x) ->
  Repo.object_write gitdir compress sha1 o true st = (Ok h, st') ->
  serialize o = Ok data ->
  Some (Repo.object_read gitdir decompress fuel st' h) = construct fuel (fmt o) data.
Proof.
  intros Hz Hw Hs.
  rewrite StoreFacts.object_write_true_eq, Hs in Hw. cbv zeta in Hw.
  destruct (write_step _ _ _ st) as [[u|e] st1] eqn:W; [|discriminate].
  injection Hw as <- <-.
  destruct (WriteFacts.read_after_write_step _ _ _ _ _ _ W) as [Hf Hr].
  unfold Repo.object_read. rewrite Hf, StrFacts.bind_ok. cbn [Repo.some_path]. rewrite StrFacts.bind_ok.
  rewrite Hr, StrFacts.bind_ok, Hz, StrFacts.bind_ok.
  rewrite NumFacts.object_parse_frame by (destruct o; reflexivity).
  destruct o; reflexivity.
Qed.

Lemma object_write_read_witness :
  Some (Repo.object_read Fixtures.gitdir_w Fixtures.no_zlib 5
          (snd (Repo.object_write Fixtures.gitdir_w id sha_a (GitBlob "hi") true Fixtures.store_chain))
          (Fixtures.rep 40 "a"))
  = construct 5 "blob" "hi".
Proof.
  apply (object_write_read Fixtures.gitdir_w Fixtures.no_zlib id sha_a 5 (GitBlob "hi")
           Fixtures.store_chain (Fixtures.rep 40 "a")
           (snd (Repo.object_write Fixtures.gitdir_w id sha_a (GitBlob "hi") true Fixtures.store_chain))
           "hi").
  - intros x. reflexivity.
  - assert (E : fst (Repo.object_write Fixtures.gitdir_w id sha_a (GitBlob "hi") true Fixtures.store_chain)
                = Ok (Fixtures.rep 40 "a")) by (vm_compute; reflexivity).
    rewrite <- E. apply surjective_pairing.
  - reflexivity.
Defined.


(** X3: a text made of field lines [k SP v NL], with distinct keys that
    are non-empty and hold no space or newline and each newline of a value
    followed by a space, then a blank line and a message, is parsed into
    the keys with their unfolded values, in order, and the message under
    the empty key. *)
Theorem kvlm_parse_fields (fs : list (string * string)) (msg : string) (fuel : nat) :
  Forall (fun kv => key_ok (fst kv)) fs -> NoDup (map fst fs) ->
  (String.length (fields_bytes fs ++ s1 NL ++ msg) < fuel)%nat ->
  Kvlm.key_value_list_with_message_parse fuel (fields_bytes fs ++ s1 NL ++ msg)
  = Ok (as_dict fs ++ [(EmptyString, Kvlm.KBytes msg)])%list.
Proof.
  intros HF HD Hf. apply (KvlmFacts.parse_aux_fields fs msg HF HD EmptyString [] fuel Hf).
  - apply Forall_forall. intros; reflexivity.
  - reflexivity.
Qed.

Lemma kvlm_parse_fields_witness :
  Kvlm.key_value_list_with_message_parse 200
    (fields_bytes [("tree", rep 40 "3"); ("gpgsig", ("a" ++ s1 NL ++ "b")%string)] ++ s1 NL ++ "msg")
  = Ok (as_dict [("tree", rep 40 "3"); ("gpgsig", ("a" ++ s1 NL ++ "b")%string)]
        ++ [(EmptyString, Kvlm.KBytes "msg")])%list.
Proof.
  apply kvlm_parse_fields.
  - apply List.Forall_cons; [|apply List.Forall_cons; [|apply List.Forall_nil]];
      cbn [fst]; unfold key_ok; (split; [discriminate | split; reflexivity]).
  - cbn. apply NoDup_cons_2; [|apply NoDup_cons_2; [|apply NoDup_nil_2]];
      intros H; apply list_elem_of_In in H; cbn in H; intuition discriminate.
  - vm_compute. lia.
Defined.

(** X4: after a successful [ref_create(repo, ref_name, sha)],
    [ref_resolve] of [refs/<ref_name>] gives [sha] back, when [sha] holds
    no carriage return and does not start with [ref: ]. *)
Theorem ref_create_resolve (gitdir : list string) (ref_name sha : string) (st : fs) (u : unit)
  (st' : fs) (k : nat) :
  Porcelain.ref_create gitdir ref_name sha st = (Ok u, st') ->
  find_char CR sha = None -> String.prefix "ref: " sha = false ->
  Repo.ref_resolve gitdir (S k) st' ("refs/" ++ ref_name) = Ok sha.
Proof. apply RefCreateFacts.ref_resolve_created. Qed.

Lemma ref_create_resolve_witness :
  Repo.ref_resolve gitdir_w 1
    (snd (Porcelain.ref_create gitdir_w "heads/dev" commit_id store_refs))
    ("refs/" ++ "heads/dev") = Ok commit_id.
Proof.
  apply (ref_create_resolve gitdir_w "heads/dev" commit_id store_refs tt
           (snd (Porcelain.ref_create gitdir_w "heads/dev" commit_id store_refs)) 0).
  - assert (E : fst (Porcelain.ref_create gitdir_w "heads/dev" commit_id store_refs) = Ok tt)
      by (vm_compute; reflexivity).
    rewrite <- E. apply surjective_pairing.
  - reflexivity.
  - reflexivity.
Defined.



(** X5: a lightweight tag made by [tag_create] resolves to the id that
    [object_find] gave for the reference. *)
Theorem tag_create_lightweight (gitdir : list string) (decompress : string -> option string)
  (compress sha1 : string -> string) (fuel k : nat) (name reference sha : string)
  (st : fs) (u : unit) (st' : fs) :
  Repo.object_find gitdir decompress fuel st reference None true = Ok (Some sha) ->
  find_char CR sha = None -> String.prefix "ref: " sha = false ->
  Porcelain.tag_create gitdir decompress compress sha1 fuel name reference false st = (Ok u, st') ->
  Repo.ref_resolve gitdir (S k) st' ("refs/tags/" ++ name) = Ok sha.
Proof.
  intros Hf Hcr Hp. unfold Porcelain.tag_create, mbind, mget, lift. rewrite Hf. cbv beta iota.
  intros R. exact (RefCreateFacts.ref_resolve_created _ _ _ _ _ _ k R Hcr Hp).
Qed.

Lemma tag_create_lightweight_witness :
  Repo.ref_resolve gitdir_w 1
    (snd (Porcelain.tag_create gitdir_w no_zlib id sha_a 5 "v2" "HEAD" false store_tags))
    ("refs/tags/" ++ "v2") = Ok commit_id.
Proof.
  apply (tag_create_lightweight gitdir_w no_zlib id sha_a 5 0 "v2" "HEAD" commit_id store_tags tt
           (snd (Porcelain.tag_create gitdir_w no_zlib id sha_a 5 "v2" "HEAD" false store_tags))).
  - vm_compute. reflexivity.
  - reflexivity.
  - reflexivity.
  - assert (E : fst (Porcelain.tag_create gitdir_w no_zlib id sha_a 5 "v2" "HEAD" false store_tags)
                = Ok tt) by (vm_compute; reflexivity).
    rewrite <- E. apply surjective_pairing.
Defined.



(** X6: an annotated tag made by [tag_create] cannot be read back: its
    reference resolves to the id of the stored tag object, and
    [object_read] of that id raises [AssertionError], since the
    serializer writes [object<sha>] without the space the parser needs.
    Assumed: zlib round-trips, the hash is lowercase hexadecimal, the tag
    name is one path component and the tagged id holds no space or
    newline. *)
Theorem tag_create_annotated_unreadable (gitdir : list string) (decompress : string -> option string)
  (compress sha1 : string -> string) (fuel fuel' k : nat) (name reference sha : string)
  (st : fs) (u : unit) (st' : fs) :
  (forall x, decompress (compress x) = Some x) ->
  (forall x, all_lhex (sha1 x) = true) ->
  path_component name ->
  Repo.object_find gitdir decompress fuel st reference None true = Ok (Some sha) ->
  find_char SP sha = None -> find_char NL sha = None -> (1 <= fuel')%nat ->
  Porcelain.tag_create gitdir decompress compress sha1 fuel name reference true st = (Ok u, st') ->
  exists h, Repo.ref_resolve gitdir (S k) st' ("refs/tags/" ++ name) = Ok h
    /\ Repo.object_read gitdir decompress fuel' st' h = Err AssertionError.
Proof.
  intros Hz Hhex Hname Hf Hsp Hnl Hfuel.
  unfold Porcelain.tag_create, mbind, mget, lift. rewrite Hf. cbv beta iota.
  destruct (TagFacts.tag_serialize sha name) as [rest Hs].
  destruct (Repo.object_write gitdir compress sha1 (GitTag (Porcelain.tag_dict sha name)) true st)
    as [[h|e] st1] eqn:W; [|discriminate].
  intros R. exists h.
  rewrite StoreFacts.object_write_true_eq, Hs in W. cbv zeta in W.
  set (data := "object" ++ fold_value sha ++ String NL rest) in W.
  destruct (write_step gitdir _ _ st) as [[v|e] st2] eqn:WS; [|discriminate].
  injection W as <- <-.
  set (h := sha1 (Repo.frame (fmt (GitTag (Porcelain.tag_dict sha name))) data)) in *.
  assert (Hh : all_lhex h = true) by apply Hhex.
  split.
  - exact (RefCreateFacts.ref_resolve_created _ _ _ _ _ _ k R
             (TagFacts.find_char_lhex CR _ eq_refl Hh) (TagFacts.lhex_not_ref _ Hh)).
  - destruct (WriteFacts.read_after_write_step _ _ _ _ _ _ WS) as [Hrf Hrb].
    destruct (RefCreateFacts.ref_create_ok _ _ _ _ _ _ R) as (_ & -> & _).
    rewrite (PathFacts.repo_path_tag gitdir name Hname).
    destruct (PathFacts.repo_path_shard gitdir h Hh) as (l1 & l2 & Hq & Hp).
    assert (Hne : forall l, (gitdir ++ ["refs"; "tags"; name])%list <> (gitdir ++ "objects" :: l)%list)
      by (intros l E; apply app_inv_head in E; discriminate).
    unfold Repo.object_read.
    assert (Hrf' : forall n, Repo.repo_file gitdir (<[(gitdir ++ ["refs"; "tags"; name])%list := n]> st2)
                     (Repo.shard h) = Repo.repo_file gitdir st2 (Repo.shard h)).
    { intros n. unfold Repo.repo_file, Repo.repo_dir, exists_, isdir.
      rewrite Hq, StoreFacts.node_at_insert_ne by apply Hne. reflexivity. }
    rewrite Hrf', Hrf, StrFacts.bind_ok. cbn [Repo.some_path]. rewrite StrFacts.bind_ok.
    apply TagFacts.read_bytes_file in Hrb. unfold read_bytes at 1.
    rewrite StoreFacts.node_at_insert_ne by (rewrite Hp; apply Hne). rewrite Hrb, StrFacts.bind_ok, Hz, StrFacts.bind_ok.
    rewrite NumFacts.object_parse_frame by reflexivity. unfold construct. cbn [fmt String.eqb Ascii.eqb Bool.eqb].
    destruct fuel' as [|f]; [lia|]. unfold data.
    rewrite TreeFacts.sapp_assoc, TagFacts.parse_first_line_no_key; [reflexivity| discriminate | |].
    + change ("object" ++ fold_value sha) with ("object" ++ fold_value sha)%string.
      rewrite (StrFacts.find_char_app_none SP "object" (fold_value sha) eq_refl).
      rewrite TagFacts.fold_value_plain, Hsp by exact Hnl. reflexivity.
    + rewrite (StrFacts.find_char_app_none NL "object" (fold_value sha) eq_refl).
      rewrite TagFacts.fold_value_plain, Hnl by exact Hnl. reflexivity.
Qed.

Lemma tag_create_annotated_unreadable_witness :
  exists h, Repo.ref_resolve gitdir_w 1
              (snd (Porcelain.tag_create gitdir_w no_zlib id sha_a 5 "v2" "HEAD" true store_tags))
              ("refs/tags/" ++ "v2") = Ok h
    /\ Repo.object_read gitdir_w no_zlib 5
         (snd (Porcelain.tag_create gitdir_w no_zlib id sha_a 5 "v2" "HEAD" true store_tags)) h
       = Err AssertionError.
Proof.
  apply (tag_create_annotated_unreadable gitdir_w no_zlib id sha_a 5 5 0 "v2" "HEAD" commit_id
           store_tags tt
           (snd (Porcelain.tag_create gitdir_w no_zlib id sha_a 5 "v2" "HEAD" true store_tags))).
  - intros x. reflexivity.
  - intros x. reflexivity.
  - split; [reflexivity | split; [discriminate | split; discriminate]].
  - vm_compute. reflexivity.
  - reflexivity.
  - reflexivity.
  - lia.
  - assert (E : fst (Porcelain.tag_create gitdir_w no_zlib id sha_a 5 "v2" "HEAD" true store_tags)
                = Ok tt) by (vm_compute; reflexivity).
    rewrite <- E. apply surjective_pairing.
Defined.




(** X7: a 40-character hexadecimal name resolves to itself in
    lowercase whatever the store holds, and [object_find] without a type
    returns it without reading the store. *)
Theorem object_resolve_full_id (gitdir : list string) (decompress : string -> option string)
  (fuel : nat) (st : fs) (name : string) (follow : bool) :
  String.length name = 40%nat -> Repo.all_hex name = true ->
  Repo.object_resolve gitdir fuel st name = Ok (Some [Repo.lower name])
  /\ Repo.object_find gitdir decompress fuel st name None follow = Ok (Some (Repo.lower name)).
Proof.
  intros Hl Hh. pose proof (ResolveFacts.object_resolve_full gitdir fuel st name Hl Hh) as R.
  split; [exact R|]. unfold Repo.object_find. rewrite R. reflexivity.
Qed.

Lemma object_resolve_full_id_witness :
  Repo.object_resolve gitdir_w 5 store_chain (rep 40 "B") = Ok (Some [Repo.lower (rep 40 "B")])
  /\ Repo.object_find gitdir_w no_zlib 5 store_chain (rep 40 "B") None true
     = Ok (Some (Repo.lower (rep 40 "B"))).
Proof. apply object_resolve_full_id; reflexivity. Defined.







(** X9: the first object [object_find] reads decides the result: an
    object of the asked type gives its id, one of another type that is
    not a tag gives [None], and a tag with [follow=False] gives the tag's
    own id. *)
Theorem object_find_first_read (gitdir : list string) (decompress : string -> option string)
  (fuel : nat) (st : fs) (name h f : string) (o : GitObject) :
  Repo.object_resolve gitdir fuel st name = Ok (Some [h]) ->
  Repo.object_read gitdir decompress fuel st h = Ok o ->
  f <> EmptyString -> (1 <= fuel)%nat ->
  (fmt o = f -> forall follow, Repo.object_find gitdir decompress fuel st name (Some f) follow = Ok (Some h))
  /\ (fmt o <> f -> fmt o <> "tag" ->
      forall follow, Repo.object_find gitdir decompress fuel st name (Some f) follow = Ok None)
  /\ (fmt o = "tag" -> f <> "tag" ->
      Repo.object_find gitdir decompress fuel st name (Some f) false = Ok (Some h)).
Proof.
  intros Hr Ho He Hf. destruct fuel as [|k]; [lia|].
  assert (E : forall follow, Repo.object_find gitdir decompress (S k) st name (Some f) follow
              = Repo.find_loop gitdir decompress (S k) (S k) st f follow h).
  { intros follow. unfold Repo.object_find. rewrite Hr, StrFacts.bind_ok.
    rewrite (proj2 (String.eqb_neq _ _) He). reflexivity. }
  split; [|split].
  - intros Hfm follow. rewrite E, FindFacts.find_loop_step, Ho, StrFacts.bind_ok.
    rewrite (proj2 (String.eqb_eq _ _) Hfm). reflexivity.
  - intros Hfm Ht follow. rewrite E, FindFacts.find_loop_step, Ho, StrFacts.bind_ok.
    rewrite (proj2 (String.eqb_neq _ _) Hfm), (proj2 (String.eqb_neq _ _) Ht). reflexivity.
  - intros Ht Hft. rewrite E, FindFacts.find_loop_step, Ho, StrFacts.bind_ok, Ht.
    rewrite (proj2 (String.eqb_neq "tag" f)) by congruence. reflexivity.
Qed.

Lemma object_find_first_read_witness :
  (fmt (GitTree []) = "tree" -> forall follow,
     Repo.object_find gitdir_w no_zlib 5 store_chain tree_id (Some "tree") follow = Ok (Some tree_id))
  /\ (fmt (GitTree []) <> "tree" -> fmt (GitTree []) <> "tag" -> forall follow,
     Repo.object_find gitdir_w no_zlib 5 store_chain tree_id (Some "tree") follow = Ok None)
  /\ (fmt (GitTree []) = "tag" -> "tree" <> "tag" ->
     Repo.object_find gitdir_w no_zlib 5 store_chain tree_id (Some "tree") false = Ok (Some tree_id)).
Proof.
  apply object_find_first_read.
  - vm_compute. reflexivity.
  - vm_compute. reflexivity.
  - discriminate.
  - lia.
Defined.



(** X10: [object_read] of a 40-character hexadecimal id that is not
    stored raises [TypeError] when the shard directory is missing, the
    [Not a directory] exception when it is a file, and
    [FileNotFoundError] when only the object file is missing. *)
Theorem object_read_missing (gitdir : list string) (decompress : string -> option string)
  (fuel : nat) (st : fs) (h : string) :
  String.length h = 40%nat -> Repo.all_hex h = true ->
  let d := (gitdir ++ ["objects"; slice h 0 2])%list in
  (node_at st d = None -> Repo.object_read gitdir decompress fuel st h = Err TypeError)
  /\ (forall c, node_at st d = Some (File c) ->
        Repo.object_read gitdir decompress fuel st h = Err NotADirectoryException)
  /\ (node_at st d = Some Dir -> node_at st (d ++ [slice_from h 2])%list = None ->
      Repo.object_read gitdir decompress fuel st h = Err FileNotFoundError).
Proof.
  intros Hl Hh d.
  destruct (ResolveFacts.shard_split h Hl Hh) as (a & b & t & _ & E1 & E2 & Ca & Ct).
  subst d. set (A := String a (String b EmptyString)) in *.
  assert (Pd : Repo.repo_path gitdir (removelast (Repo.shard h)) = (gitdir ++ ["objects"; A])%list).
  { unfold Repo.repo_path, Repo.shard, join. rewrite E1. cbn [removelast fold_left].
    rewrite (PathFacts.join1_component gitdir "objects")
      by (split; [reflexivity | split; [discriminate | split; discriminate]]).
    rewrite (PathFacts.join1_component _ A Ca). rewrite <- app_assoc. reflexivity. }
  assert (Pp : Repo.repo_path gitdir (Repo.shard h) = ((gitdir ++ ["objects"; A]) ++ [t])%list).
  { unfold Repo.repo_path, Repo.shard, join. rewrite E1, E2. cbn [fold_left].
    rewrite (PathFacts.join1_component gitdir "objects")
      by (split; [reflexivity | split; [discriminate | split; discriminate]]).
    rewrite (PathFacts.join1_component _ A Ca), (PathFacts.join1_component _ t Ct).
    rewrite <- !app_assoc. reflexivity. }
  rewrite E1, E2. unfold Repo.object_read, Repo.repo_file, Repo.repo_dir.
  rewrite Pd. unfold exists_, isdir.
  split; [|split].
  - intros N. rewrite N. reflexivity.
  - intros c N. rewrite N. reflexivity.
  - intros N M. rewrite N, StrFacts.bind_ok. cbv iota. rewrite StrFacts.bind_ok.
    cbn [Repo.some_path]. rewrite StrFacts.bind_ok, Pp. unfold read_bytes.
    rewrite M, removelast_last, N. reflexivity.
Qed.

Lemma object_read_missing_witness :
  let d := (gitdir_w ++ ["objects"; slice bad_id 0 2])%list in
  (node_at store_chain d = None -> Repo.object_read gitdir_w no_zlib 5 store_chain bad_id = Err TypeError)
  /\ (forall c, node_at store_chain d = Some (File c) ->
        Repo.object_read gitdir_w no_zlib 5 store_chain bad_id = Err NotADirectoryException)
  /\ (node_at store_chain d = Some Dir -> node_at store_chain (d ++ [slice_from bad_id 2])%list = None ->
      Repo.object_read gitdir_w no_zlib 5 store_chain bad_id = Err FileNotFoundError).
Proof. apply object_read_missing; reflexivity. Defined.




(** X11: [hash-object -w] then [cat-file] of the printed id with the
    same type prints the input bytes back, for a blob and for a tree
    payload of complete entries; assumed: zlib round-trips and the hash
    is 40 lowercase hexadecimal characters. *)
Theorem hash_object_cat_file (gitdir : list string) (decompress : string -> option string)
  (compress sha1 : string -> string) (fuel : nat) (f data : string) (st : fs) (h : string) (st' : fs) :
  (forall x, decompress (compress x) = Some x) ->
  (forall x, String.length (sha1 x) = 40%nat /\ all_lhex (sha1 x) = true) ->
  (1 <= fuel)%nat ->
  (f = "blob" \/ (f = "tree" /\ exists es, Forall full_entry es /\ (List.length es <= fuel)%nat
                                           /\ data = entries_bytes es)) ->
  Porcelain.object_hash gitdir compress sha1 fuel data f true st = (Ok h, st') ->
  Porcelain.cat_file gitdir decompress fuel st' h (Some f) = Ok data.
Proof.
  intros Hz Hsha Hfuel [-> | (-> & es & HF & Hl & ->)].
  - apply (HashFacts.hash_then_cat _ _ _ _ _ _ _ (GitBlob data));
      [exact Hz | exact Hsha | exact Hfuel | discriminate | reflexivity | reflexivity | reflexivity].
  - apply (HashFacts.hash_then_cat _ _ _ _ _ _ _ (GitTree (map leaf_of es)));
      [exact Hz | exact Hsha | exact Hfuel | discriminate | | reflexivity | ].
    + unfold construct. cbn [String.eqb Ascii.eqb Bool.eqb].
      assert (Hp : tree_parse fuel (entries_bytes es) = Ok (map leaf_of es))
        by exact (HexFacts.tree_parse_loop_full es HF fuel EmptyString [] Hl).
      rewrite Hp. reflexivity.
    + apply HexFacts.tree_serialize_full, HF.
Qed.

Lemma hash_object_cat_file_witness :
  Porcelain.cat_file gitdir_w no_zlib 5
    (snd (Porcelain.object_hash gitdir_w id sha_a 5 "hi" "blob" true store_chain))
    (rep 40 "a") (Some "blob") = Ok "hi".
Proof.
  apply (hash_object_cat_file gitdir_w no_zlib id sha_a 5 "blob" "hi" store_chain (rep 40 "a")
           (snd (Porcelain.object_hash gitdir_w id sha_a 5 "hi" "blob" true store_chain))).
  - intros x. reflexivity.
  - intros x. split; reflexivity.
  - lia.
  - left. reflexivity.
  - assert (E : fst (Porcelain.object_hash gitdir_w id sha_a 5 "hi" "blob" true store_chain)
                = Ok (rep 40 "a")) by (vm_compute; reflexivity).
    rewrite <- E. apply surjective_pairing.
Defined.



(** X12: [cmd_ls_tree] never prints a line: on a tree with entries it
    raises [TypeError] (from [int + str]), or [UnicodeDecodeError] when
    the first mode is not ASCII; only an empty tree gives no error. *)
Theorem cmd_ls_tree_no_output (gitdir : list string) (decompress : string -> option string)
  (fuel : nat) (st : fs) (name h : string) (leaf : GitTreeLeaf) (items : list GitTreeLeaf) :
  fst (Porcelain.cmd_ls_tree gitdir decompress fuel st name) = []
  /\ (Repo.object_find gitdir decompress fuel st name (Some "tree") true = Ok (Some h) ->
      Repo.object_read gitdir decompress fuel st h = Ok (GitTree (leaf :: items)) ->
      Porcelain.cmd_ls_tree gitdir decompress fuel st name
      = ([], Err (match decode_ascii (mode leaf) with Ok _ => TypeError | Err _ => UnicodeDecodeError end))).
Proof.
  split.
  - unfold Porcelain.cmd_ls_tree.
    destruct (_ ≫= _) as [its|e]; [rewrite HashFacts.ls_tree_loop_out|]; reflexivity.
  - intros Hf Hr. unfold Porcelain.cmd_ls_tree. rewrite Hf, StrFacts.bind_ok. cbn [Porcelain.read_found].
    rewrite Hr, StrFacts.bind_ok. cbn [Porcelain.tree_items]. apply HashFacts.ls_tree_loop_out.
Qed.

Lemma cmd_ls_tree_no_output_witness :
  Porcelain.cmd_ls_tree gitdir_w no_zlib 5 store_ls ls_tree_id = ([], Err TypeError).
Proof.
  destruct (cmd_ls_tree_no_output gitdir_w no_zlib 5 store_ls ls_tree_id ls_tree_id ls_leaf [])
    as [_ H].
  rewrite H; [reflexivity | |].
  - vm_compute. reflexivity.
  - vm_compute. reflexivity.
Defined.

(** X13: [tree_checkout] of a tree whose entries have distinct names
    that are single path components, and whose objects are not trees,
    writes each blob's bytes to [path/<name>] (over an existing file),
    skips the other entries (a commit, as for a submodule) and changes
    nothing else.  Assumed: [path] is a directory, the ids are lowercase
    hexadecimal and no destination lies under the git directory's
    [objects]. *)
Theorem tree_checkout_files (gitdir : list string) (decompress : string -> option string)
  (depth fuel : nat) (items : list GitTreeLeaf) (path : list string) (st : fs) :
  node_at st path = Some Dir ->
  Forall (fun leaf => path_component (Tree.path leaf)) items ->
  NoDup (map Tree.path items) ->
  (forall leaf, In leaf items ->
     all_lhex (Tree.sha leaf) = true
     /\ (forall l, (path ++ [Tree.path leaf])%list <> (gitdir ++ "objects" :: l)%list)
     /\ exists o, Repo.object_read gitdir decompress fuel st (Tree.sha leaf) = Ok o
        /\ fmt o <> "tree"
        /\ (fmt o = "blob" -> node_at st (path ++ [Tree.path leaf])%list <> Some Dir)) ->
  let '(r, st') := Checkout.tree_checkout gitdir decompress (S depth) fuel (GitTree items) path st in
  r = Ok tt
  /\ (forall leaf, In leaf items ->
        node_at st' (path ++ [Tree.path leaf])%list =
        match Repo.object_read gitdir decompress fuel st (Tree.sha leaf) with
        | Ok (GitBlob data) => Some (File data)
        | _ => node_at st (path ++ [Tree.path leaf])%list
        end)
  /\ (forall q, (forall leaf, In leaf items -> q <> (path ++ [Tree.path leaf])%list) ->
        node_at st' q = node_at st q).
Proof.
  intros Hd Hc Hn Hok.
  change (Checkout.tree_checkout gitdir decompress (S depth) fuel (GitTree items) path st)
    with (Checkout.checkout_items gitdir decompress
            (Checkout.tree_checkout gitdir decompress depth fuel) fuel path items st).
  apply (CheckoutFacts.checkout_items_files gitdir decompress fuel _ path items st Hd Hc Hn Hok).
Qed.

Lemma tree_checkout_files_witness :
  let '(r, st') := Checkout.tree_checkout gitdir_w no_zlib 1 5 (GitTree co_leaves) ["out"] store_co in
  r = Ok tt
  /\ (forall leaf, In leaf co_leaves ->
        node_at st' (["out"] ++ [Tree.path leaf])%list =
        match Repo.object_read gitdir_w no_zlib 5 store_co (Tree.sha leaf) with
        | Ok (GitBlob data) => Some (File data)
        | _ => node_at store_co (["out"] ++ [Tree.path leaf])%list
        end)
  /\ (forall q, (forall leaf, In leaf co_leaves -> q <> (["out"] ++ [Tree.path leaf])%list) ->
        node_at st' q = node_at store_co q).
Proof.
  apply (tree_checkout_files gitdir_w no_zlib 0 5 co_leaves ["out"] store_co).
  - reflexivity.
  - repeat constructor; discriminate.
  - apply NoDup_cons_2; [|apply NoDup_cons_2; [|apply NoDup_nil_2]];
      intros H; apply list_elem_of_In in H; cbn in H; intuition discriminate.
  - intros leaf [<-|[<-|[]]]; (split; [reflexivity|]); (split; [intros l; discriminate|]).
    + exists (GitBlob "hi"). split; [vm_compute; reflexivity|].
      split; [discriminate|]. intros _. vm_compute. discriminate.
    + exists (GitCommit [("tree", Kvlm.KBytes tree_id); (EmptyString, Kvlm.KBytes ("m" ++ s1 NL))]).
      split; [vm_compute; reflexivity|]. split; [discriminate|]. discriminate.
Defined.

(** X14: [ref_list] of a directory whose entries are all reference files,
    each holding an id and a newline, returns one entry per file, with
    the names in strictly increasing order, each mapped to its id;
    [show_ref] without hashes then prints the names in that order. *)
Theorem ref_list_flat (gitdir : list string) (depth fuel : nat) (st : fs) (p : list string) :
  node_at st gitdir = Some Dir -> Forall path_component p -> (1 <= fuel)%nat ->
  (forall f n, st !! (p ++ [f])%list = Some n ->
     path_component f
     /\ exists sha, n = File (sha ++ s1 NL) /\ find_char CR sha = None
                   /\ String.prefix "ref: " sha = false) ->
  exists l, Refs.ref_list gitdir (S depth) fuel st p = Ok l
    /\ Sorted (fun a b => String.ltb a b = true) (map fst l)
    /\ (forall f, In f (map fst l) <-> exists n, st !! (p ++ [f])%list = Some n)
    /\ (forall f v, In (f, v) l ->
          exists sha, v = Refs.RSha sha /\ st !! (p ++ [f])%list = Some (File (sha ++ s1 NL)))
    /\ Refs.show_ref l false EmptyString = map fst l.
Proof.
  intros G Hp Hfuel Hent. destruct fuel as [|k]; [lia|].
  destruct (RefsFacts.ref_list_items_files gitdir (Refs.ref_list gitdir depth (S k) st) k st p
              (Refs.sorted (listdir st p)) G Hp) as (l & El & Ml & Vl).
  { intros f Hin. apply (Permutation_in _ (RefsFacts.sorted_perm _)) in Hin.
    apply ResolveFacts.listdir_spec in Hin as [n Hn].
    destruct (Hent f n Hn) as (Hf & sha & -> & Hcr & Hpre).
    split; [exact Hf|]. exists sha. split; [exact Hn|]. split; assumption. }
  exists l. split; [exact El|]. rewrite Ml. split; [apply RefsFacts.sorted_sorted, RefsFacts.listdir_nodup|].
  split; [|split].
  - intros f. rewrite <- ResolveFacts.listdir_spec. split; intros H.
    + apply (Permutation_in _ (RefsFacts.sorted_perm _)), H.
    + apply (Permutation_in _ (Permutation_sym (RefsFacts.sorted_perm _))), H.
  - intros f v H. destruct (Vl f v H) as (sha & -> & Hs & _). exists sha. split; [reflexivity | exact Hs].
  - rewrite <- Ml. apply RefsFacts.show_ref_shas.
    intros f v H. destruct (Vl f v H) as (sha & -> & _). exists sha. reflexivity.
Qed.

Lemma ref_list_flat_witness :
  exists l, Refs.ref_list gitdir_w 1 5 store_lt (gitdir_w ++ ["refs"; "tags"])%list = Ok l
    /\ Sorted (fun a b => String.ltb a b = true) (map fst l)
    /\ (forall f, In f (map fst l) <-> exists n, store_lt !! ((gitdir_w ++ ["refs"; "tags"]) ++ [f])%list = Some n)
    /\ (forall f v, In (f, v) l ->
          exists sha, v = Refs.RSha sha
            /\ store_lt !! ((gitdir_w ++ ["refs"; "tags"]) ++ [f])%list = Some (File (sha ++ s1 NL)))
    /\ Refs.show_ref l false EmptyString = map fst l.
Proof.
  apply ref_list_flat.
  - reflexivity.
  - repeat constructor; discriminate.
  - lia.
  - intros f n H. unfold store_lt, store_tags, store_refs, store_chain in H.
    repeat (apply lookup_insert_Some in H; destruct H as [[Hk <-]|[_ H]];
      [unfold gitdir_w in Hk; cbn in Hk; simplify_eq;
       (split; [split; [reflexivity | split; [discriminate | split; discriminate]] |
                eexists; split; [reflexivity | split; reflexivity]])|]).
    rewrite lookup_empty in H. discriminate.
Defined.

(** X15: without a [refs] directory, [ref_list(repo)] lists the current
    working directory instead: it returns an empty dictionary when that
    directory is empty and raises [TypeError] otherwise; a file named
    [refs] raises the [Not a directory] exception. *)
Theorem ref_list_no_refs (gitdir cwd : list string) (depth fuel : nat) (st : fs) :
  (node_at st (Repo.repo_path gitdir ["refs"]) = None ->
     Refs.ref_list_repo gitdir cwd depth fuel st
     = match listdir st cwd with [] => Ok [] | _ :: _ => Err TypeError end)
  /\ (forall c, node_at st (Repo.repo_path gitdir ["refs"]) = Some (File c) ->
     Refs.ref_list_repo gitdir cwd depth fuel st = Err NotADirectoryException).
Proof.
  unfold Refs.ref_list_repo, Repo.repo_dir, exists_, isdir. split.
  - intros ->. rewrite StrFacts.bind_ok.
    destruct (listdir st cwd) as [|x l] eqn:E.
    + reflexivity.
    + destruct (Refs.sorted (x :: l)) eqn:S; [|reflexivity].
      pose proof (RefsFacts.sorted_perm (x :: l)) as P. rewrite S in P.
      apply Permutation_nil in P. discriminate.
  - intros c ->. reflexivity.
Qed.

Lemma ref_list_no_refs_witness :
  Refs.ref_list_repo gitdir_w ["w"] 1 5 store_chain = Err TypeError.
Proof.
  rewrite (proj1 (ref_list_no_refs gitdir_w ["w"] 1 5 store_chain)) by reflexivity.
  vm_compute. reflexivity.
Defined.

(** X16: [cat_file] asked for a type that the named object does not
    have, when the object is not a tag, raises [TypeError]: [object_find]
    returns [None] and [object_read] slices it. *)
Theorem cat_file_wrong_type (gitdir : list string) (decompress : string -> option string)
  (fuel : nat) (st : fs) (name h f : string) (o : GitObject) :
  Repo.object_resolve gitdir fuel st name = Ok (Some [h]) ->
  Repo.object_read gitdir decompress fuel st h = Ok o ->
  f <> EmptyString -> fmt o <> f -> fmt o <> "tag" -> (1 <= fuel)%nat ->
  Porcelain.cat_file gitdir decompress fuel st name (Some f) = Err TypeError.
Proof.
  intros Hr Ho He Hfm Ht Hf. destruct fuel as [|k]; [lia|].
  unfold Porcelain.cat_file, Repo.object_find. rewrite Hr, !StrFacts.bind_ok.
  rewrite (proj2 (String.eqb_neq _ _) He).
  rewrite FindFacts.find_loop_step, Ho, StrFacts.bind_ok.
  rewrite (proj2 (String.eqb_neq _ _) Hfm), (proj2 (String.eqb_neq _ _) Ht). reflexivity.
Qed.

Lemma cat_file_wrong_type_witness :
  Porcelain.cat_file gitdir_w no_zlib 5 store_chain tree_id (Some "blob") = Err TypeError.
Proof.
  apply (cat_file_wrong_type gitdir_w no_zlib 5 store_chain tree_id tree_id "blob" (GitTree [])).
  - vm_compute. reflexivity.
  - vm_compute. reflexivity.
  - discriminate.
  - discriminate.
  - discriminate.
  - lia.
Defined.
